(** * bedshift: the perturbation engine of [bedshift/bedshift.py]

    A shallow embedding of the [Bedshift] class: the five operators
    (add, shift, cut, merge, drop), their from-file variants and
    [all_perturbations], followed by the properties the specification
    states about them.

    Modelling decisions.
    - [self.bed] is a [pandas.DataFrame] whose index is [0 .. n-1] at the
      entry of every operator (the constructor and every operator end with
      [reset_index(drop=True)] or [append(..., ignore_index=True)]).  It is
      a [list Region]; an index label is a position.
    - Rates are Python floats, binary64 numbers.  A float is given by its
      value, a rational [Q]; a float operation returns the float nearest to
      its exact result ([binary64]), so [rows * rate] is the rounded
      product, which [int(x)] truncates towards zero.  A rate written as a
      fraction that is no float stands for the float nearest to it, as a
      decimal does in Python.  Means and standard
      deviations only pass through [numpy.random.normal], whose draw is an
      integer once [int] is applied.
    - Columns 1 and 2 of the table are [int64]; a coordinate is an integer
      [Z].  [_cut] adds two coordinates, and the sum wraps around as
      numpy's does ([int64]).  [_shift] adds a drawn distance to a
      coordinate: the sum is taken to stay in the 64-bit range.
    - [self.chrom_lens] is a [dict], which keeps its keys in the order of
      their insertion: it is the list of its items ([dict]).
    - Python's exceptions and [sys.exit(1)] are the constructors of [error];
      a computation that fails still hands back the object as it was at
      that point, as a Python exception does.
    - [random], [numpy.random] and [pyranges] are libraries: they are
      interfaces ([RandomSource], [Pyranges]) with the part of their
      contract the operators rely on, and one concrete instance of each.
    - [read_bed] is file parsing: a file is the table it parses to. *)

From Stdlib Require Import ZArith QArith Qround Qabs Lqa.
From stdpp Require Import base gmap strings list.

Local Open Scope Z_scope.

(** ** Data model *)

(** Column 3 of the table: ['-'], ['A'], ['S'], ['C'], ['M']. *)
Inductive modification : Type :=
  | Original
  | Added
  | Shifted
  | Cut
  | Merged.

(** One row of the table: columns 0, 1, 2, 3. *)
Record Region : Type := mkRegion {
  chrom : string;
  start : Z;
  end_ : Z;
  tag : modification
}.

#[global] Instance modification_eq_dec : EqDecision modification.
Proof. solve_decision. Defined.

#[global] Instance Region_eq_dec : EqDecision Region.
Proof. solve_decision. Defined.

(** A Python [dict] from chromosome names to lengths: its items in the
    order of insertion, each key once. *)
Definition dict : Type := list (string * Z).

(** [d[c]] *)
Fixpoint dict_get (d : dict) (c : string) : option Z :=
  match d with
  | [] => None
  | (key, value) :: d' => if bool_decide (key = c) then Some value else dict_get d' c
  end.

#[global] Instance dict_lookup : Lookup string Z dict := fun c d => dict_get d c.

#[global] Instance dict_empty : Empty dict := [].

(** The attributes of a [Bedshift] object the operators read or write. *)
Record Bedshift : Type := mkBedshift {
  bed : list Region;
  original_bed : list Region;
  chrom_lens : dict
}.

(** What an operator can end with instead of a value.  The first four are
    [_LOGGER.error] followed by [sys.exit(1)] (or the [Exception] of
    [_find_overlap]), told apart by their message; [UnreadableInput] is the
    exit of [read_bed]; the last two are Python's own. *)
Inductive error : Type :=
  | InvalidRate
  | MissingChromosomeLengths
  | InsufficientOverlap (available requested : Z)
  | NoOverlapFound
  | UnreadableInput
  | ValueError
  | KeyError.

Inductive result (A : Type) : Type :=
  | Ok (a : A)
  | Raise (e : error).
Arguments Ok {A} a.
Arguments Raise {A} e.

(** [_LOGGER.warning] calls of the operators. *)
Inductive log_event : Type :=
  | WarnInvalidShifted (invalid_shifted : Z)
  | WarnDropClamped (num_drop drop_rows : Z).

(** ** Arithmetic *)

Definition Qlt_bool (x y : Q) : bool := negb (Qle_bool y x).

(** [int(x)] on a float: truncation towards zero. *)
Definition py_int (x : Q) : Z := Z.quot (Qnum x) (Z.pos (Qden x)).

(** *** Floats *)

(** The binade of a positive number: the [e] with [2^e <= x < 2^(e+1)]. *)
Definition binade (x : Q) : Z :=
  let d := Z.log2 (Qnum x) - Z.log2 (Z.pos (Qden x)) in
  if Qle_bool (2 ^ d) x then d else d - 1.

(** The exponent of the last binary place of the floats around [x]: with 53
    significant bits it is 52 places below the binade of [x], and it is no
    lower than -1074, the place of the subnormal floats.  From 2^53 on the
    last place of a float lies above the units; it is kept at the units
    here, which leaves every integer a float: no number of rows comes near
    2^53. *)
Definition last_place (x : Q) : Z :=
  Z.min 0 (Z.max (-1074) (binade (Qabs x) - 52)).

(** The nearest integer, the even one of two that are as near. *)
Definition round_half_even (x : Q) : Z :=
  let f := Qfloor x in
  match (x - inject_Z f ?= 1 # 2)%Q with
  | Lt => f
  | Eq => if Z.even f then f else f + 1
  | Gt => f + 1
  end.

(** The float nearest to [x]: [x] rounded at its last place.  It is what a
    float operation returns when its exact result is [x], and the float a
    decimal or an integer stands for. *)
Definition binary64 (x : Q) : Q :=
  let scale := inject_Z (2 ^ (- last_place x)) in
  (inject_Z (round_half_even (x * scale)) / scale)%Q.

(** [int(rows * rate)]: the number of rows becomes a float, the product of
    the two floats is rounded, and [int] truncates it.  ([binary64 rate] is
    [rate] when [rate] is a float.) *)
Definition rate_count (rows : nat) (rate : Q) : Z :=
  py_int (binary64 (binary64 (inject_Z (Z.of_nat rows)) * binary64 rate)).

(** The product of the number of rows and the rate, a float, before it is
    rounded. *)
Definition exact_product (rows : nat) (rate : Q) : Q :=
  (inject_Z (Z.of_nat rows) * binary64 rate)%Q.

(** *** 64-bit integers *)

(** The value an [int64] operation returns when its exact result is [z]:
    it wraps around. *)
Definition int64 (z : Z) : Z := (z + 2 ^ 63) mod 2 ^ 64 - 2 ^ 63.

(** ** DataFrame operations on a table with index [0 .. n-1] *)

(** [df.loc[row]] *)
Definition loc (df : list Region) (row : nat) : result Region :=
  match df !! row with
  | Some r => Ok r
  | None => Raise KeyError
  end.

(** The rows of [df], numbered from [i], whose label is not in [labels]. *)
Fixpoint drop_from (i : nat) (labels : list nat) (df : list Region) : list Region :=
  match df with
  | [] => []
  | r :: df' =>
      if bool_decide (i ∈ labels) then drop_from (S i) labels df'
      else r :: drop_from (S i) labels df'
  end.

Definition drop_rows (labels : list nat) (df : list Region) : list Region :=
  drop_from 0 labels df.

(** [df.drop(labels)]: a label outside the index is a [KeyError]. *)
Definition df_drop (df : list Region) (labels : list nat) : result (list Region) :=
  if forallb (fun i => Nat.ltb i (length df)) labels
  then Ok (drop_rows labels df)
  else Raise KeyError.

(** The table [read_bed] makes of the first three columns of a file:
    column 3 is set to ['-']. *)
Definition bed_table (rows : list (string * Z * Z)) : list Region :=
  map (fun '(c, s, e) => mkRegion c s e Original) rows.

(** ** The libraries *)

(** [random] and [numpy.random]: every draw takes the generator state and
    returns the next one.  The laws are the documented contract of
    [random.sample] (distinct positions of the population), of
    [random.randint] (both ends included) and of [random.choices]
    (elements of the population); a draw of no element leaves the
    generator untouched. *)
Class RandomSource : Type := {
  rng_state : Type;
  (** [random.sample(list(range(n)), k)] for [k <= n] *)
  sample : nat -> nat -> rng_state -> list nat * rng_state;
  (** [int(np.random.normal(mean, stdev))] for [0 <= stdev] *)
  normal : Q -> Q -> rng_state -> Z * rng_state;
  (** [random.randint(a, b)] for [a <= b] *)
  randint : Z -> Z -> rng_state -> Z * rng_state;
  (** [random.choices(population, weights=weights, k=k)] *)
  choices : list string -> list Q -> nat -> rng_state -> list string * rng_state;
  sample_length : forall n k g, (k <= n)%nat -> length (sample n k g).1 = k;
  sample_NoDup : forall n k g, (k <= n)%nat -> NoDup (sample n k g).1;
  sample_lt : forall n k g i, (k <= n)%nat -> i ∈ (sample n k g).1 -> (i < n)%nat;
  sample_0 : forall n g, sample n 0 g = ([], g);
  randint_range : forall a b g, a <= b -> a <= (randint a b g).1 <= b;
  choices_length : forall pop ws k g, pop <> [] -> length (choices pop ws k g).1 = k;
  choices_elem : forall pop ws k g c, c ∈ (choices pop ws k g).1 -> c ∈ pop;
  choices_0 : forall pop ws g, choices pop ws 0 g = ([], g)
}.

(** Half-open intervals on one chromosome. *)
Definition overlaps (r c : Region) : bool :=
  bool_decide (chrom r = chrom c) && (start r <? end_ c) && (start c <? end_ r).

(** [PyRanges(reference).overlap(PyRanges(comparison), how='first').as_df()]:
    the rows of the reference that overlap a row of the comparison, each once,
    grouped by chromosome, each with the index label the frame gives it. *)
Class Pyranges : Type := {
  overlap_first : list Region -> list Region -> list (nat * Region);
  overlap_first_rows : forall reference comparison,
    (overlap_first reference comparison).*2
    ≡ₚ filter (fun r => existsb (overlaps r) comparison = true) reference
}.

Section Engine.

Context {RS : RandomSource} {PR : Pyranges}.

(** ** State and effects *)

(** Everything a method call can read or change: the object, the state of
    the process-wide generators, the warnings logged, the files on disk. *)
Record world : Type := mkWorld {
  self : Bedshift;
  rng : rng_state;
  log : list log_event;
  fs : gmap string (list (string * Z * Z))
}.

Definition M (A : Type) : Type := world -> result A * world.

Definition ret {A : Type} (a : A) : M A := fun w => (Ok a, w).

Definition bind {A B : Type} (m : M A) (k : A -> M B) : M B :=
  fun w =>
    match m w with
    | (Ok a, w') => k a w'
    | (Raise e, w') => (Raise e, w')
    end.

Notation "'let*' x ':=' m 'in' k" := (bind m (fun x => k))
  (at level 10, x pattern, m at level 100, k at level 200).
Notation "m ';;;' k" := (bind m (fun _ => k))
  (at level 100, k at level 200, right associativity).

Definition raise {A : Type} (e : error) : M A := fun w => (Raise e, w).

Definition lift {A : Type} (r : result A) : M A := fun w => (r, w).

Definition get_self : M Bedshift := fun w => (Ok (self w), w).

(** [self.bed = df] *)
Definition set_bed (df : list Region) : M unit :=
  fun w =>
    (Ok tt,
     mkWorld (mkBedshift df (original_bed (self w)) (chrom_lens (self w)))
             (rng w) (log w) (fs w)).

Definition warning (ev : log_event) : M unit :=
  fun w => (Ok tt, mkWorld (self w) (rng w) (log w ++ [ev]) (fs w)).

Definition draw {A : Type} (f : rng_state -> A * rng_state) : M A :=
  fun w => let (a, g) := f (rng w) in (Ok a, mkWorld (self w) g (log w) (fs w)).

(** [try: body  except ValueError: handler] *)
Definition try_except_ValueError {A : Type} (body handler : M A) : M A :=
  fun w =>
    match body w with
    | (Raise ValueError, w') => handler w'
    | other => other
    end.

Fixpoint mapM {A B : Type} (f : A -> M B) (l : list A) : M (list B) :=
  match l with
  | [] => ret []
  | a :: l' =>
      let* b := f a in
      let* bs := mapM f l' in
      ret (b :: bs)
  end.

(** [random.sample(list(range(n)), k)]: [ValueError] when the sample is
    larger than the population or negative. *)
Definition random_sample (n : nat) (k : Z) : M (list nat) :=
  if (k <? 0) || (Z.of_nat n <? k) then raise ValueError
  else draw (sample n (Z.to_nat k)).

(** [int(np.random.normal(mean, stdev))]: numpy refuses a negative scale
    with a [ValueError]. *)
Definition normal_int (mean stdev : Q) : M Z :=
  if Qlt_bool stdev 0 then raise ValueError
  else draw (normal mean stdev).

(** [random.randint(a, b)]: [ValueError] on an empty range. *)
Definition random_randint (a b : Z) : M Z :=
  if b <? a then raise ValueError
  else draw (randint a b).

(** [random.choices(population, weights=weights, k=k)] *)
Definition random_choices (population : list string) (weights : list Q) (k : Z)
  : M (list string) :=
  draw (choices population weights (Z.to_nat k)).

(** [read_bed]: the first three columns, column 3 set to ['-']; a path that
    cannot be read ends the process. *)
Definition read_bed (bedfile_path : string) : M (list Region) :=
  fun w =>
    match fs w !! bedfile_path with
    | Some rows => (Ok (bed_table rows), w)
    | None => (Raise UnreadableInput, w)
    end.

(** ** The methods of [Bedshift] *)

Definition _precheck (rate : Q) (requiresChromLens isAdd : bool) : M unit :=
  (if isAdd then
     if Qlt_bool rate 0 then raise InvalidRate else ret tt
   else
     if Qlt_bool rate 0 || Qlt_bool 1 rate then raise InvalidRate else ret tt) ;;;
  if requiresChromLens then
    let* s := get_self in
    if bool_decide (length (chrom_lens s) = 0%nat) then raise MissingChromosomeLengths
    else ret tt
  else ret tt.

(** [self.chrom_weights], set with [self.chrom_lens] by [_read_chromsizes]:
    the float [chrom_len / total_len] for each value of the dict, in the
    order of the dict.  ([_read_chromsizes] fails on the division when the
    lengths add up to 0: no object has such a dict.) *)
Definition chrom_weights (s : Bedshift) : list Q :=
  let lens := (chrom_lens s).*2 in
  let total_len := foldr Z.add 0 lens in
  map (fun chrom_len => binary64 (inject_Z chrom_len / inject_Z total_len)) lens.

(** [self.chrom_lens[chrom]] *)
Definition chrom_len_of (s : Bedshift) (c : string) : result Z :=
  match chrom_lens s !! c with
  | Some len => Ok len
  | None => Raise KeyError
  end.

Definition pick_random_chroms (n : Z) : M (list (string * Z)) :=
  let* s := get_self in
  let* chrom_strs :=
    random_choices (chrom_lens s).*1 (chrom_weights s) n in
  let* lens := mapM (fun chrom_str => lift (chrom_len_of s chrom_str)) chrom_strs in
  ret (zip chrom_strs lens).

(** The body of the loop of [add]: one new region. *)
Definition add_region (addmean addstdev : Q) (c : string * Z) : M Region :=
  let '(chrom_str, chrom_len) := c in
  let* start := random_randint 1 chrom_len in
  let* length := normal_int addmean addstdev in
  ret (mkRegion chrom_str start (Z.min (start + length) chrom_len) Added).

Definition add (addrate addmean addstdev : Q) : M Z :=
  _precheck addrate true true ;;;
  let* s := get_self in
  let rows := length (bed s) in
  let num_add := rate_count rows addrate in
  let* random_chroms := pick_random_chroms num_add in
  let* new_regions := mapM (add_region addmean addstdev) random_chroms in
  let* s := get_self in
  set_bed (bed s ++ new_regions) ;;;
  ret num_add.

Definition add_from_file (fp : string) (addrate : Q) : M Z :=
  _precheck addrate true true ;;;
  let* s := get_self in
  let rows := length (bed s) in
  let num_add := rate_count rows addrate in
  let* df := read_bed fp in
  let num_add := if Z.of_nat (length df) <? num_add then Z.of_nat (length df) else num_add in
  let* add_rows := random_sample (length df) num_add in
  let* add_df := mapM (fun row => lift (loc df row)) add_rows in
  let add_df := map (fun r => mkRegion (chrom r) (start r) (end_ r) Added) add_df in
  let* s := get_self in
  set_bed (bed s ++ add_df) ;;;
  ret num_add.

Definition _shift (row : nat) (mean stdev : Q) : M (option nat * option Region) :=
  let* theshift := normal_int mean stdev in
  let* s := get_self in
  let* r := lift (loc (bed s) row) in
  let chrom := chrom r in
  let start := start r in
  let end_ := end_ r in
  if start + theshift <? 0 then ret (None, None)
  else
    let* chrom_len := lift (chrom_len_of s chrom) in
    if chrom_len <? end_ + theshift then ret (None, None)
    else ret (Some row, Some (mkRegion chrom (start + theshift) (end_ + theshift) Shifted)).

(** The loop of [shift] over [shift_rows], on
    [(new_row_list, to_drop, num_shifted, invalid_shifted)]. *)
Fixpoint shift_loop (shift_rows : list nat) (shiftmean shiftstdev : Q)
    (acc : list Region * list nat * Z * Z) : M (list Region * list nat * Z * Z) :=
  match shift_rows with
  | [] => ret acc
  | row :: rest =>
      let '(new_row_list, to_drop, num_shifted, invalid_shifted) := acc in
      let* res := _shift row shiftmean shiftstdev in
      match res with
      | (Some drop_row, Some new_region) =>
          shift_loop rest shiftmean shiftstdev
            (new_row_list ++ [new_region], to_drop ++ [drop_row],
             num_shifted + 1, invalid_shifted)
      | _ =>
          shift_loop rest shiftmean shiftstdev
            (new_row_list, to_drop, num_shifted, invalid_shifted + 1)
      end
  end.

Definition shift (shiftrate shiftmean shiftstdev : Q) (shift_rows : option (list nat))
  : M Z :=
  _precheck shiftrate true false ;;;
  let* s := get_self in
  let rows := length (bed s) in
  let* shift_rows :=
    match shift_rows with
    | None => random_sample rows (rate_count rows shiftrate)
    | Some given => ret given
    end in
  let* acc := shift_loop shift_rows shiftmean shiftstdev ([], [], 0, 0) in
  let '(new_row_list, to_drop, num_shifted, invalid_shifted) := acc in
  let* s := get_self in
  let* dropped := lift (df_drop (bed s) to_drop) in
  set_bed dropped ;;;
  let* s := get_self in
  set_bed (bed s ++ new_row_list) ;;;
  (if 0 <? invalid_shifted then warning (WarnInvalidShifted invalid_shifted)
   else ret tt) ;;;
  ret num_shifted.

(** [reference=None] and [fp] a path: the two cases the operators use. *)
Definition _find_overlap (fp : string) : M (list (nat * Region)) :=
  let* s := get_self in
  let reference_bed := original_bed s in
  let* comparison_bed := read_bed fp in
  let intersection := overlap_first reference_bed comparison_bed in
  if bool_decide (length intersection = 0%nat) then raise NoOverlapFound
  else ret intersection.

Definition shift_from_file (fp : string) (shiftrate shiftmean shiftstdev : Q) : M Z :=
  _precheck shiftrate false false ;;;
  let* s := get_self in
  let rows := length (bed s) in
  let num_shift := rate_count rows shiftrate in
  let* shift_bed := read_bed fp in
  let* intersect_regions := _find_overlap fp in
  try_except_ValueError
    (let* rows2shift := random_sample (length intersect_regions) num_shift in
     shift shiftrate shiftmean shiftstdev (Some rows2shift))
    (raise (InsufficientOverlap (Z.of_nat (length intersect_regions)) num_shift)).

(** Where [_cut] cuts a region: the midpoint, moved when it falls on an
    end.  [start] and [end] are [int64] values, and so are the sum, the
    quotient and the moved points. *)
Definition thecut (start end_ : Z) : Z :=
  let thecut := int64 (start + end_) / 2 in
  let thecut := if thecut <=? start then int64 (start + 10) else thecut in
  let thecut := if end_ <=? thecut then int64 (end_ - 10) else thecut in
  thecut.

Definition _cut (s : Bedshift) (row : nat) : result (nat * list Region) :=
  match loc (bed s) row with
  | Raise e => Raise e
  | Ok r =>
      let chrom := chrom r in
      let start := start r in
      let end_ := end_ r in
      let thecut := thecut start end_ in
      Ok (row, [mkRegion chrom start thecut Cut; mkRegion chrom thecut end_ Cut])
  end.

(** The loop of [cut] over [cut_rows], on [(new_row_list, to_drop)]. *)
Fixpoint cut_loop (cut_rows : list nat) (acc : list Region * list nat)
  : M (list Region * list nat) :=
  match cut_rows with
  | [] => ret acc
  | row :: rest =>
      let '(new_row_list, to_drop) := acc in
      let* s := get_self in
      let* res := lift (_cut s row) in
      let '(drop_row, new_regions) := res in
      cut_loop rest (new_row_list ++ new_regions, to_drop ++ [drop_row])
  end.

Definition cut (cutrate : Q) : M Z :=
  _precheck cutrate false false ;;;
  let* s := get_self in
  let rows := length (bed s) in
  let* cut_rows := random_sample rows (rate_count rows cutrate) in
  let* acc := cut_loop cut_rows ([], []) in
  let '(new_row_list, to_drop) := acc in
  let* s := get_self in
  let* dropped := lift (df_drop (bed s) to_drop) in
  set_bed dropped ;;;
  let* s := get_self in
  set_bed (bed s ++ new_row_list) ;;;
  ret (Z.of_nat (length cut_rows)).

Definition _merge (s : Bedshift) (row : nat) : result (list nat * option Region) :=
  if negb (Nat.ltb (row + 1) (length (bed s))) then Ok ([], None)
  else
    match loc (bed s) row, loc (bed s) (row + 1) with
    | Raise e, _ => Raise e
    | _, Raise e => Raise e
    | Ok r, Ok r' =>
        if negb (bool_decide (chrom r = chrom r')) then Ok ([], None)
        else
          let chrom := chrom r in
          let start := start r in
          let end_ := end_ r' in
          Ok ([row; (row + 1)%nat], Some (mkRegion chrom start end_ Merged))
    end.

(** The loop of [merge] over [merge_rows], on [(to_add, to_drop)]. *)
Fixpoint merge_loop (merge_rows : list nat) (acc : list Region * list nat)
  : M (list Region * list nat) :=
  match merge_rows with
  | [] => ret acc
  | row :: rest =>
      let '(to_add, to_drop) := acc in
      let* s := get_self in
      let* res := lift (_merge s row) in
      let '(drop_row, add_row) := res in
      let to_add := match add_row with Some m => to_add ++ [m] | None => to_add end in
      merge_loop rest (to_add, to_drop ++ drop_row)
  end.

Definition merge (mergerate : Q) : M Z :=
  _precheck mergerate false false ;;;
  let* s := get_self in
  let rows := length (bed s) in
  let* merge_rows := random_sample rows (rate_count rows mergerate) in
  let* acc := merge_loop merge_rows ([], []) in
  let '(to_add, to_drop) := acc in
  let* s := get_self in
  let* dropped := lift (df_drop (bed s) to_drop) in
  set_bed dropped ;;;
  let* s := get_self in
  set_bed (bed s ++ to_add) ;;;
  ret (Z.of_nat (length merge_rows)).

Definition drop (droprate : Q) : M Z :=
  _precheck droprate false false ;;;
  let* s := get_self in
  let rows := length (bed s) in
  let* drop_rows := random_sample rows (rate_count rows droprate) in
  let* s := get_self in
  let* dropped := lift (df_drop (bed s) drop_rows) in
  set_bed dropped ;;;
  ret (Z.of_nat (length drop_rows)).

(** [intersect_regions.index[rows2drop]] *)
Definition index_at (intersect_regions : list (nat * Region)) (pos : nat) : result nat :=
  match intersect_regions !! pos with
  | Some (label, _) => Ok label
  | None => Raise KeyError
  end.

Definition drop_from_file (fp : string) (droprate : Q) : M Z :=
  if Qlt_bool droprate 0 then raise InvalidRate
  else if Qeq_bool droprate 0 then ret 0
  else
    let* s := get_self in
    let rows := length (bed s) in
    let num_drop := rate_count rows droprate in
    let* drop_bed := read_bed fp in
    let drop_rows := Z.of_nat (length drop_bed) in
    let* num_drop :=
      if drop_rows <=? num_drop then
        warning (WarnDropClamped num_drop drop_rows) ;;; ret drop_rows
      else ret num_drop in
    let* intersect_regions := _find_overlap fp in
    let* rows2drop := random_sample (length intersect_regions) num_drop in
    let* labels := mapM (fun pos => lift (index_at intersect_regions pos)) rows2drop in
    let* s := get_self in
    let* dropped := lift (df_drop (bed s) labels) in
    set_bed dropped ;;;
    ret num_drop.

(** [if shiftfile:] on a path or [None]. *)
Definition given (file : option string) : option string :=
  match file with
  | Some path => if bool_decide (path = "") then None else Some path
  | None => None
  end.

(** [all_perturbations] without a yaml configuration. *)
Definition all_perturbations
    (addrate addmean addstdev : Q) (addfile : option string)
    (shiftrate shiftmean shiftstdev : Q) (shiftfile : option string)
    (cutrate mergerate droprate : Q) (dropfile : option string) : M Z :=
  let n := 0 in
  let* k :=
    match given shiftfile with
    | Some path => shift_from_file path shiftrate shiftmean shiftstdev
    | None => shift shiftrate shiftmean shiftstdev None
    end in
  let n := n + k in
  let* k :=
    match given addfile with
    | Some path => add_from_file path addrate
    | None => add addrate addmean addstdev
    end in
  let n := n + k in
  let* k := cut cutrate in
  let n := n + k in
  let* k := merge mergerate in
  let n := n + k in
  let* k :=
    match given dropfile with
    | Some path => drop_from_file path droprate
    | None => drop droprate
    end in
  let n := n + k in
  ret n.

(** [reset_bed]: [self.bed = self.original_bed.copy()] *)
Definition reset_bed : M unit :=
  let* s := get_self in
  set_bed (original_bed s).

End Engine.

(** ** The vocabulary of the properties *)

Section Vocabulary.

Context {RS : RandomSource} {PR : Pyranges}.

(** A region that lies on its chromosome. *)
Definition within_bounds (lens : dict) (r : Region) : Prop :=
  0 <= start r /\ exists len, lens !! chrom r = Some len /\ end_ r <= len.

(** An accepted shift of [shift]: the label it drops and the region it
    appends, which is row [p.1] moved by some distance, tagged Shifted and
    still on its chromosome. *)
Definition shifted_of (df : list Region) (lens : dict)
    (p : nat * Region) : Prop :=
  exists r d,
    df !! p.1 = Some r /\
    p.2 = mkRegion (chrom r) (start r + d) (end_ r + d) Shifted /\
    within_bounds lens p.2.


(** A region made by [add]: tagged Added, its start in [1, chromLen], its
    end the start plus a drawn length, cut down to chromLen. *)
Definition added_to (lens : dict) (r : Region) : Prop :=
  tag r = Added /\
  exists len,
    lens !! chrom r = Some len /\
    1 <= start r <= len /\ end_ r <= len /\
    exists length, end_ r = Z.min (start r + length) len.

(** The two regions [_cut] makes of the region [r]. *)
Definition cut_pair (r : Region) (p : Region * Region) : Prop :=
  chrom p.1 = chrom r /\ chrom p.2 = chrom r /\
  tag p.1 = Cut /\ tag p.2 = Cut /\
  start p.1 = start r /\ end_ p.1 = start p.2 /\ end_ p.2 = end_ r /\
  end_ p.1 = thecut (start r) (end_ r).

(** The two regions [_cut] makes of row [row] of the table [df]. *)
Definition cut_of (df : list Region) (row : nat) (p : Region * Region) : Prop :=
  exists r, df !! row = Some r /\ cut_pair r p.

(** The rows a pair of regions adds to the table. *)
Definition both (p : Region * Region) : list Region := [p.1; p.2].

(** Rows [row] and [row + 1] of the table [df] exist and lie on one
    chromosome. *)
Definition mergeable (df : list Region) (row : nat) : Prop :=
  exists r r',
    df !! row = Some r /\ df !! (row + 1)%nat = Some r' /\ chrom r = chrom r'.

(** What [_merge] answers for the sampled row [row] of the table [df]: the
    labels to drop and the region to add.  Either rows [row] and [row + 1]
    both exist on one chromosome, and the answer is the pair of labels with
    the region from the start of the first to the end of the second; or row
    [row + 1] is missing or lies on another chromosome, and the answer is
    nothing to drop and nothing to add. *)
Definition merge_of (df : list Region) (row : nat)
    (out : list nat * option Region) : Prop :=
  (exists r r',
      df !! row = Some r /\ df !! (row + 1)%nat = Some r' /\
      chrom r = chrom r' /\
      out = ([row; (row + 1)%nat],
             Some (mkRegion (chrom r) (start r) (end_ r') Merged)))
  \/ ((df !! (row + 1)%nat = None \/
       exists r r', df !! row = Some r /\ df !! (row + 1)%nat = Some r' /\
                    chrom r <> chrom r')
      /\ out = ([], None)).

(** A computation that never writes the object. *)
Definition readonly {A : Type} (m : M A) : Prop :=
  forall w, self (m w).2 = self w.

(** A computation that never fails. *)
Definition total {A : Type} (m : M A) : Prop :=
  forall w, exists a w', m w = (Ok a, w').

(** A computation that, when it fails, leaves the object as it found it. *)
Definition fails_clean {A : Type} (m : M A) : Prop :=
  forall w e w', m w = (Raise e, w') -> self w' = self w.

(** A computation whose failures all satisfy [P]. *)
Definition raises_only {A : Type} (P : error -> Prop) (m : M A) : Prop :=
  forall w e w', m w = (Raise e, w') -> P e.

(** A call of one of the eight operators. *)
Inductive operator : Type :=
  | Call_add (addrate addmean addstdev : Q)
  | Call_add_from_file (fp : string) (addrate : Q)
  | Call_shift (shiftrate shiftmean shiftstdev : Q) (shift_rows : option (list nat))
  | Call_shift_from_file (fp : string) (shiftrate shiftmean shiftstdev : Q)
  | Call_cut (cutrate : Q)
  | Call_merge (mergerate : Q)
  | Call_drop (droprate : Q)
  | Call_drop_from_file (fp : string) (droprate : Q).

Definition call (op : operator) : M Z :=
  match op with
  | Call_add addrate addmean addstdev => add addrate addmean addstdev
  | Call_add_from_file fp addrate => add_from_file fp addrate
  | Call_shift shiftrate shiftmean shiftstdev shift_rows =>
      shift shiftrate shiftmean shiftstdev shift_rows
  | Call_shift_from_file fp shiftrate shiftmean shiftstdev =>
      shift_from_file fp shiftrate shiftmean shiftstdev
  | Call_cut cutrate => cut cutrate
  | Call_merge mergerate => merge mergerate
  | Call_drop droprate => drop droprate
  | Call_drop_from_file fp droprate => drop_from_file fp droprate
  end.

(** A computation that leaves alone, whether it fails or not, everything
    but the working table, the generator and the log: the original table,
    the length map and the files. *)
Definition frame {A : Type} (m : M A) : Prop :=
  forall w,
    original_bed (self (m w).2) = original_bed (self w) /\
    chrom_lens (self (m w).2) = chrom_lens (self w) /\
    fs (m w).2 = fs w.

End Vocabulary.

(** ** One instance of each library *)

(** A generator that replays a tape of recorded draws: each call that draws
    anything consumes one cell of the tape.  It stands for one possible run
    of the generators, not for their distribution: the weights of
    [choices] play no part. *)
Module Tape.

Definition cell (g : list Z) : nat := Z.to_nat (Z.abs (hd 0 g)).

Definition sample (n k : nat) (g : list Z) : list nat * list Z :=
  match k with
  | O => ([], g)
  | S _ => (map (fun i => ((cell g + i) mod n)%nat) (seq 0 k), tl g)
  end.

Definition normal (mean stdev : Q) (g : list Z) : Z * list Z := (hd 0 g, tl g).

Definition randint (a b : Z) (g : list Z) : Z * list Z :=
  (a + hd 0 g mod (b - a + 1), tl g).

Definition choices (pop : list string) (ws : list Q) (k : nat) (g : list Z)
  : list string * list Z :=
  match k, pop with
  | O, _ => ([], g)
  | _, [] => ([], g)
  | S _, c :: _ =>
      (map (fun i => nth ((cell g + i) mod length pop)%nat pop c) (seq 0 k), tl g)
  end.

Lemma sample_length n k g : (k <= n)%nat -> length (sample n k g).1 = k.
Proof.
  intros _. destruct k as [|k]; [reflexivity|].
  unfold sample. cbn [fst]. now rewrite length_map, length_seq.
Qed.

Lemma mod_shift_inj n c i j :
  (i < n)%nat -> (j < n)%nat -> ((c + i) mod n = (c + j) mod n)%nat -> i = j.
Proof.
  intros Hi Hj Heq.
  assert (Hn : n <> 0%nat) by lia.
  pose proof (Nat.div_mod_eq (c + i) n) as E1.
  pose proof (Nat.div_mod_eq (c + j) n) as E2.
  pose proof (Nat.mod_upper_bound (c + i) n Hn) as B1.
  rewrite Heq in E1.
  set (q1 := ((c + i) / n)%nat) in *. set (q2 := ((c + j) / n)%nat) in *.
  assert (q1 = q2) by nia.
  subst q1. nia.
Qed.

Lemma sample_NoDup n k g : (k <= n)%nat -> NoDup (sample n k g).1.
Proof.
  intros Hk. destruct k as [|k]; [constructor|].
  unfold sample. cbn [fst].
  apply NoDup_fmap_2_strong; [|apply NoDup_seq].
  intros i j Hi Hj. rewrite !elem_of_seq in Hi, Hj.
  apply mod_shift_inj; lia.
Qed.

Lemma sample_lt n k g i : (k <= n)%nat -> i ∈ (sample n k g).1 -> (i < n)%nat.
Proof.
  intros Hk. destruct k as [|k]; [intros Hin; inversion Hin|].
  unfold sample. cbn [fst]. intros Hin.
  change (i ∈ (fun i0 => ((cell g + i0) mod n)%nat) <$> seq 0 (S k)) in Hin.
  apply list_elem_of_fmap in Hin as (j & -> & _).
  apply Nat.mod_upper_bound. lia.
Qed.

Lemma randint_range a b g : a <= b -> a <= (randint a b g).1 <= b.
Proof.
  intros Hab. unfold randint. cbn [fst].
  pose proof (Z.mod_pos_bound (hd 0 g) (b - a + 1)). lia.
Qed.

Lemma choices_length pop ws k g : pop <> [] -> length (choices pop ws k g).1 = k.
Proof.
  intros Hpop. destruct k as [|k]; [reflexivity|].
  destruct pop as [|c pop]; [congruence|].
  unfold choices. cbn [fst]. now rewrite length_map, length_seq.
Qed.

Lemma choices_elem pop ws k g c : c ∈ (choices pop ws k g).1 -> c ∈ pop.
Proof.
  destruct k as [|k]; [intros Hin; inversion Hin|].
  destruct pop as [|c0 pop]; [intros Hin; inversion Hin|].
  unfold choices. cbn [fst]. intros Hin.
  change (c ∈ (fun i => nth ((cell g + i) mod length (c0 :: pop))%nat (c0 :: pop) c0)
            <$> seq 0 (S k)) in Hin.
  apply list_elem_of_fmap in Hin as (j & -> & _).
  apply list_elem_of_In, nth_In, Nat.mod_upper_bound. cbn. lia.
Qed.

Definition source : RandomSource :=
  Build_RandomSource (list Z) sample normal randint choices
    sample_length sample_NoDup sample_lt (fun n g => eq_refl)
    randint_range choices_length choices_elem (fun pop ws g => eq_refl).

End Tape.

(** An overlap resolver that keeps the rows of the reference in their order
    and numbers them from 0. *)
Module Numbered.

Definition overlap_first (reference comparison : list Region) : list (nat * Region) :=
  let rows := filter (fun r => existsb (overlaps r) comparison = true) reference in
  zip (seq 0 (length rows)) rows.

Lemma overlap_first_rows reference comparison :
  (overlap_first reference comparison).*2
  ≡ₚ filter (fun r => existsb (overlaps r) comparison = true) reference.
Proof.
  unfold overlap_first. rewrite snd_zip; [reflexivity|].
  now rewrite length_seq.
Qed.

Definition resolver : Pyranges := Build_Pyranges overlap_first overlap_first_rows.

End Numbered.

(** ** Example inputs *)

Module Example.

Definition chr1 (start end_ : Z) : Region := mkRegion "chr1" start end_ Original.

Definition sizes : dict := [("chr1", 1000)].

(** Ten regions of 100 bases that tile chr1, of length 1000. *)
Definition ten : list Region :=
  map (fun i => chr1 (100 * Z.of_nat i) (100 * Z.of_nat i + 100)) (seq 0 10).

(** A freshly loaded object: the working table is the original one. *)
Definition loaded (table : list Region) (lens : dict) (tape : list Z)
    (files : gmap string (list (string * Z * Z))) : @world Tape.source :=
  @mkWorld Tape.source (mkBedshift table table lens) tape [] files.

Definition ten_world (tape : list Z) : @world Tape.source :=
  loaded ten sizes tape ∅.

(** The same table loaded without a chrom.sizes file. *)
Definition no_sizes_world : @world Tape.source := loaded ten ∅ [] ∅.

(** Two identical rows. *)
Definition twice_world : @world Tape.source :=
  loaded [chr1 0 100; chr1 0 100] sizes [0] ∅.


(** Three regions, of which only the last overlaps the one region of the
    external file. *)
Definition external : list (string * Z * Z) := [("chr1", 520, 530)].

Definition three : Bedshift :=
  let table := [chr1 0 100; chr1 200 300; chr1 500 600] in
  mkBedshift table table sizes.

Definition three_files : gmap string (list (string * Z * Z)) :=
  <["ext.bed" := external]> ∅.

Definition three_world : @world Tape.source :=
  @mkWorld Tape.source three [0; 40] [] three_files.

(** Two regions that both overlap the one region of the external file. *)
Definition two_world : @world Tape.source :=
  loaded [chr1 0 100; chr1 100 200] sizes [0]
         (<["ext.bed" := [("chr1", 50, 150)]]> ∅).

(** One region that overlaps the external file where it is loaded, and no
    longer once it has been shifted by 500. *)
Definition near : list (string * Z * Z) := [("chr1", 50, 60)].

Definition one_world : @world Tape.source :=
  loaded [chr1 0 100] sizes [0; 500; 0] (<["ext.bed" := near]> ∅).

(** Two regions on chr1 followed by two on chr2. *)
Definition chr2 (start end_ : Z) : Region := mkRegion "chr2" start end_ Original.

Definition mixed_world : @world Tape.source :=
  loaded [chr1 0 100; chr1 100 200; chr2 0 100; chr2 500 600]
         (sizes ++ [("chr2", 1000)]) [0] ∅.

(** The ten regions and an external file on another chromosome. *)
Definition apart : list (string * Z * Z) := [("chr2", 0, 50)].

Definition apart_world : @world Tape.source :=
  loaded ten sizes [] (<["ext.bed" := apart]> ∅).


(** A table without any region. *)
Definition empty_world : @world Tape.source := loaded [] sizes [7] ∅.

End Example.

(** * Properties *)

(** ** Arithmetic of rates *)

Lemma Qlt_bool_true x y : Qlt_bool x y = true <-> (x < y)%Q.
Proof.
  unfold Qlt_bool. rewrite negb_true_iff. split.
  - intros Hb. apply Qnot_le_lt. intros Hle.
    apply Qle_bool_iff in Hle. congruence.
  - intros Hlt. destruct (Qle_bool y x) eqn:E; [|reflexivity].
    apply Qle_bool_iff in E. exfalso. exact (Qlt_not_le _ _ Hlt E).
Qed.

Lemma Qlt_bool_false x y : Qlt_bool x y = false <-> (y <= x)%Q.
Proof.
  unfold Qlt_bool. rewrite negb_false_iff. apply Qle_bool_iff.
Qed.

Lemma py_int_floor x : (0 <= x)%Q -> py_int x = Qfloor x.
Proof.
  destruct x as [n d]. unfold Qle, py_int, Qfloor. cbn.
  intros Hn. apply Z.quot_div_nonneg; lia.
Qed.

Lemma round_half_even_le x k : (x <= inject_Z k)%Q -> round_half_even x <= k.
Proof.
  intros Hx. unfold round_half_even.
  pose proof (Qfloor_le x) as Hf.
  assert (Hfk : Qfloor x <= k).
  { rewrite Zle_Qle. eapply Qle_trans; eassumption. }
  assert (Hup : (0 < x - inject_Z (Qfloor x))%Q -> Qfloor x + 1 <= k).
  { intros Hpos. apply Zlt_le_succ. rewrite Zlt_Qlt.
    apply Qlt_le_trans with x; [|exact Hx].
    apply Qlt_minus_iff. exact Hpos. }
  destruct (x - inject_Z (Qfloor x) ?= 1 # 2)%Q eqn:Hcmp.
  - apply Qeq_alt in Hcmp.
    destruct (Z.even (Qfloor x)); [exact Hfk|].
    apply Hup. rewrite Hcmp. reflexivity.
  - exact Hfk.
  - apply Qgt_alt in Hcmp. apply Hup.
    apply Qlt_trans with (1 # 2)%Q; [reflexivity|exact Hcmp].
Qed.

Lemma round_half_even_ge x k : (inject_Z k <= x)%Q -> k <= round_half_even x.
Proof.
  intros Hx. unfold round_half_even.
  assert (Hfk : k <= Qfloor x).
  { rewrite <- (Qfloor_Z k). apply Qfloor_resp_le, Hx. }
  destruct (x - inject_Z (Qfloor x) ?= 1 # 2)%Q;
    [destruct (Z.even (Qfloor x))|..]; lia.
Qed.

Lemma last_place_scale x : 0 < 2 ^ (- last_place x).
Proof. apply Z.pow_pos_nonneg; [lia|]. unfold last_place. lia. Qed.

(** An integer above [x] is above the float nearest to [x], and an integer
    below [x] is below it: an integer is a float. *)
Lemma binary64_le x k : (x <= inject_Z k)%Q -> (binary64 x <= inject_Z k)%Q.
Proof.
  intros Hx. unfold binary64.
  pose proof (last_place_scale x) as Hp.
  set (p := 2 ^ (- last_place x)) in *.
  assert (Hq : (0 < inject_Z p)%Q) by (change 0%Q with (inject_Z 0); now rewrite <- Zlt_Qlt).
  apply Qle_shift_div_r; [exact Hq|].
  rewrite <- inject_Z_mult, <- Zle_Qle.
  apply round_half_even_le. rewrite inject_Z_mult.
  apply Qmult_le_compat_r; [exact Hx|]. now apply Qlt_le_weak.
Qed.

Lemma binary64_ge x k : (inject_Z k <= x)%Q -> (inject_Z k <= binary64 x)%Q.
Proof.
  intros Hx. unfold binary64.
  pose proof (last_place_scale x) as Hp.
  set (p := 2 ^ (- last_place x)) in *.
  assert (Hq : (0 < inject_Z p)%Q) by (change 0%Q with (inject_Z 0); now rewrite <- Zlt_Qlt).
  apply Qle_shift_div_l; [exact Hq|].
  rewrite <- inject_Z_mult, <- Zle_Qle.
  apply round_half_even_ge. rewrite inject_Z_mult.
  apply Qmult_le_compat_r; [exact Hx|]. now apply Qlt_le_weak.
Qed.

Lemma binary64_Z k : (binary64 (inject_Z k) == inject_Z k)%Q.
Proof.
  apply Qle_antisym; [apply binary64_le|apply binary64_ge]; apply Qle_refl.
Qed.

Lemma round_half_even_near x :
  (Qabs (inject_Z (round_half_even x) - x) <= 1 # 2)%Q.
Proof.
  unfold round_half_even.
  pose proof (Qfloor_le x) as Hlo. pose proof (Qlt_floor x) as Hhi.
  rewrite inject_Z_plus in Hhi. change (inject_Z 1) with 1%Q in Hhi.
  apply Qabs_Qle_condition.
  destruct (x - inject_Z (Qfloor x) ?= 1 # 2)%Q eqn:Hcmp.
  - apply Qeq_alt in Hcmp.
    destruct (Z.even (Qfloor x));
      [|rewrite inject_Z_plus; change (inject_Z 1) with 1%Q]; split; lra.
  - apply Qlt_alt in Hcmp. split; lra.
  - apply Qgt_alt in Hcmp. rewrite inject_Z_plus.
    change (inject_Z 1) with 1%Q. split; lra.
Qed.

Lemma binade_of_a_fraction x : (0 <= x)%Q -> (x <= 1)%Q -> binade (Qabs x) <= 0.
Proof.
  destruct x as [a b]. unfold Qle. cbn. intros Ha Hb.
  rewrite Z.abs_eq by lia. unfold binade. cbn [Qnum Qden].
  assert (Z.log2 a <= Z.log2 (Z.pos b)) by (apply Z.log2_le_mono; lia).
  destruct (Qle_bool _ _); lia.
Qed.

(** Rounding a number between 0 and 1 moves it by 2^-53 at most. *)
Lemma binary64_near x :
  (0 <= x)%Q -> (x <= 1)%Q -> (Qabs (binary64 x - x) <= 1 # 2 ^ 53)%Q.
Proof.
  intros H0 H1. unfold binary64.
  pose proof (binade_of_a_fraction x H0 H1) as Hb.
  assert (He : 52 <= - last_place x) by (unfold last_place; lia).
  assert (Hp : 2 ^ 52 <= 2 ^ (- last_place x)) by (apply Z.pow_le_mono_r; lia).
  set (p := 2 ^ (- last_place x)) in *.
  assert (Hq : (inject_Z (2 ^ 52) <= inject_Z p)%Q) by now rewrite <- Zle_Qle.
  pose proof (round_half_even_near (x * inject_Z p)) as Hnear.
  apply Qabs_Qle_condition in Hnear as [Hlo Hhi].
  set (m := inject_Z (round_half_even (x * inject_Z p))) in *.
  set (P := inject_Z p) in *.
  assert (HP : (0 < P)%Q) by (eapply Qlt_le_trans; [|exact Hq]; reflexivity).
  assert (Hhalf : (1 # 2 <= (1 # 2 ^ 53) * P)%Q).
  { apply Qle_trans with ((1 # 2 ^ 53) * inject_Z (2 ^ 52))%Q; [discriminate|].
    apply Qmult_le_l; [reflexivity|exact Hq]. }
  apply Qabs_Qle_condition. split.
  - apply (Qplus_le_l _ _ x). ring_simplify.
    apply Qle_shift_div_l; [exact HP|]. lra.
  - apply (Qplus_le_l _ _ x). ring_simplify.
    apply Qle_shift_div_r; [exact HP|]. lra.
Qed.

Lemma float_product rows rate :
  (binary64 (inject_Z (Z.of_nat rows)) * binary64 rate == exact_product rows rate)%Q.
Proof. unfold exact_product. now rewrite binary64_Z. Qed.

Lemma rows_nonneg rows : (0 <= inject_Z (Z.of_nat rows))%Q.
Proof. change 0%Q with (inject_Z 0). rewrite <- Zle_Qle. lia. Qed.

Lemma exact_product_nonneg rows rate :
  (0 <= rate)%Q -> (0 <= exact_product rows rate)%Q.
Proof.
  intros Hr. apply Qmult_le_0_compat; [apply rows_nonneg|].
  now apply (binary64_ge rate 0).
Qed.

Lemma exact_product_le rows rate :
  (0 <= rate)%Q -> (rate <= 1)%Q -> (exact_product rows rate <= inject_Z (Z.of_nat rows))%Q.
Proof.
  intros Hr H1. unfold exact_product.
  apply Qle_trans with (inject_Z (Z.of_nat rows) * 1)%Q.
  - apply Qmult_le_compat_nonneg; split;
      [apply rows_nonneg | apply Qle_refl | now apply (binary64_ge rate 0)
      | now apply (binary64_le rate 1)].
  - rewrite Qmult_1_r. apply Qle_refl.
Qed.

(** [int(rows * rate)] lies between the floor and the ceiling of the exact
    product: it is the floor unless the product rounds up to the next
    integer. *)
Lemma rate_count_between rows rate :
  (0 <= rate)%Q ->
  Qfloor (exact_product rows rate) <= rate_count rows rate
  <= Qceiling (exact_product rows rate).
Proof.
  intros Hr.
  pose proof (float_product rows rate) as Hy.
  set (y := (binary64 (inject_Z (Z.of_nat rows)) * binary64 rate)%Q) in *.
  set (x := exact_product rows rate) in *.
  assert (Hlo : (inject_Z (Qfloor x) <= binary64 y)%Q).
  { apply binary64_ge. rewrite Hy. apply Qfloor_le. }
  assert (Hhi : (binary64 y <= inject_Z (Qceiling x))%Q).
  { apply binary64_le. rewrite Hy. apply Qle_ceiling. }
  assert (H0 : (0 <= binary64 y)%Q).
  { apply (binary64_ge _ 0). rewrite Hy. now apply exact_product_nonneg. }
  unfold rate_count. fold y. rewrite py_int_floor by exact H0. split.
  - rewrite <- (Qfloor_Z (Qfloor x)). now apply Qfloor_resp_le.
  - rewrite <- (Qfloor_Z (Qceiling x)). now apply Qfloor_resp_le.
Qed.

Lemma rate_count_nonneg rows rate : (0 <= rate)%Q -> 0 <= rate_count rows rate.
Proof.
  intros Hr. apply Z.le_trans with (Qfloor (exact_product rows rate));
    [|now apply rate_count_between].
  rewrite <- (Qfloor_Z 0). apply Qfloor_resp_le. now apply exact_product_nonneg.
Qed.

Lemma rate_count_le rows rate :
  (0 <= rate)%Q -> (rate <= 1)%Q -> rate_count rows rate <= Z.of_nat rows.
Proof.
  intros Hr H1. apply Z.le_trans with (Qceiling (exact_product rows rate));
    [now apply rate_count_between|].
  rewrite <- (Qceiling_Z (Z.of_nat rows)). apply Qceiling_resp_le.
  now apply exact_product_le.
Qed.

Lemma rate_count_exact rows rate k :
  (0 <= rate)%Q -> (exact_product rows rate == inject_Z k)%Q ->
  rate_count rows rate = k.
Proof.
  intros Hr Hx. pose proof (rate_count_between rows rate Hr) as Hb.
  rewrite (Qfloor_comp _ _ Hx), (Qceiling_comp _ _ Hx), Qfloor_Z, Qceiling_Z in Hb.
  lia.
Qed.

Lemma binary64_of_Z rate k : (rate == inject_Z k)%Q -> (binary64 rate == inject_Z k)%Q.
Proof.
  intros Hr. apply Qle_antisym; [apply binary64_le|apply binary64_ge];
    rewrite Hr; apply Qle_refl.
Qed.

Lemma rate_count_0 rows rate : (rate == 0)%Q -> rate_count rows rate = 0.
Proof.
  intros Hr. apply rate_count_exact; [rewrite Hr; apply Qle_refl|].
  unfold exact_product. rewrite (binary64_of_Z rate 0 Hr). ring.
Qed.

Lemma rate_count_of_rate_1 rows rate :
  (rate == 1)%Q -> rate_count rows rate = Z.of_nat rows.
Proof.
  intros Hr. apply rate_count_exact; [rewrite Hr; discriminate|].
  unfold exact_product. rewrite (binary64_of_Z rate 1 Hr). ring.
Qed.

Lemma py_int_0 x : (x == 0)%Q -> py_int x = 0.
Proof.
  destruct x as [n d]. unfold Qeq, py_int. cbn. intros Hn.
  replace n with 0 by lia. apply Z.quot_0_l. discriminate.
Qed.

(** The count where the float product and the exact one part: 50 * 0.58 is
    a float below 29, 10 * 0.7 rounds up to 7 although the float 0.7 is
    below 7/10, and 3 times the float nearest to 1/3 rounds up to 1. *)
Lemma rate_count_rounds_the_product :
  rate_count 50 (58 # 100) = 28 /\
  rate_count 10 (7 # 10) = 7 /\ Qfloor (exact_product 10 (7 # 10)) = 6 /\
  rate_count 90 (7 # 10) = 62 /\
  rate_count 3 (1 # 3) = 1 /\ Qfloor (exact_product 3 (1 # 3)) = 0.
Proof. vm_compute. repeat split; reflexivity. Qed.

Lemma rate_count_of_no_row rate : rate_count 0 rate = 0.
Proof.
  unfold rate_count. apply py_int_0, (binary64_of_Z _ 0).
  rewrite (float_product 0 rate). unfold exact_product. cbn [Z.of_nat]. ring.
Qed.

(** ** Dropping rows by label *)

Lemma drop_from_nil i df : drop_from i [] df = df.
Proof.
  revert i. induction df as [|r df IH]; intros i; cbn; [reflexivity|].
  rewrite bool_decide_eq_false_2 by apply not_elem_of_nil.
  now rewrite IH.
Qed.

Lemma drop_rows_nil df : drop_rows [] df = df.
Proof. apply drop_from_nil. Qed.

Lemma elem_of_drop_from i labels df r :
  r ∈ drop_from i labels df <->
  exists j, df !! j = Some r /\ (i + j)%nat ∉ labels.
Proof.
  revert i. induction df as [|r0 df IH]; intros i; cbn.
  - split; [intros H; inversion H|intros (j & H & _); discriminate].
  - case_bool_decide as Hi.
    + rewrite IH. split.
      * intros (j & Hj & Hn). exists (S j). split; [exact Hj|].
        now replace (i + S j)%nat with (S i + j)%nat by lia.
      * intros ([|j] & Hj & Hn).
        -- exfalso. apply Hn. now rewrite Nat.add_0_r.
        -- exists j. split; [exact Hj|].
           now replace (S i + j)%nat with (i + S j)%nat by lia.
    + rewrite elem_of_cons, IH. split.
      * intros [->|(j & Hj & Hn)].
        -- exists 0%nat. split; [reflexivity|]. now rewrite Nat.add_0_r.
        -- exists (S j). split; [exact Hj|].
           now replace (i + S j)%nat with (S i + j)%nat by lia.
      * intros ([|j] & Hj & Hn).
        -- left. cbn in Hj. congruence.
        -- right. exists j. split; [exact Hj|].
           now replace (S i + j)%nat with (i + S j)%nat by lia.
Qed.

(** A row stays exactly when its label is not dropped. *)
Lemma elem_of_drop_rows labels df r :
  r ∈ drop_rows labels df <-> exists j, df !! j = Some r /\ j ∉ labels.
Proof. apply elem_of_drop_from. Qed.

Lemma length_drop_from i labels df :
  (length (drop_from i labels df)
   + length (filter (fun j => j ∈ labels) (seq i (length df))))%nat
  = length df.
Proof.
  revert i. induction df as [|r df IH]; intros i; [reflexivity|].
  cbn [drop_from length seq]. rewrite filter_cons. specialize (IH (S i)).
  case_bool_decide as Hi.
  - rewrite decide_True by exact Hi. cbn [length]. lia.
  - rewrite decide_False by exact Hi. cbn [length]. lia.
Qed.

Lemma filter_labels_perm labels n :
  NoDup labels -> (forall j, j ∈ labels -> (j < n)%nat) ->
  filter (fun j => j ∈ labels) (seq 0 n) ≡ₚ labels.
Proof.
  intros Hnd Hlt. apply NoDup_Permutation.
  - apply NoDup_filter, NoDup_seq.
  - exact Hnd.
  - intros j. rewrite list_elem_of_filter, elem_of_seq. split.
    + intros [Hj _]. exact Hj.
    + intros Hj. split; [exact Hj|]. specialize (Hlt j Hj). lia.
Qed.

(** Dropping distinct labels of the index removes that many rows. *)
Lemma length_drop_rows labels df :
  NoDup labels -> (forall j, j ∈ labels -> (j < length df)%nat) ->
  (length (drop_rows labels df) + length labels)%nat = length df.
Proof.
  intros Hnd Hlt. unfold drop_rows.
  pose proof (length_drop_from 0 labels df) as Hlen.
  now rewrite (filter_labels_perm labels (length df) Hnd Hlt) in Hlen.
Qed.

Lemma df_drop_ok df labels :
  (forall j, j ∈ labels -> (j < length df)%nat) ->
  df_drop df labels = Ok (drop_rows labels df).
Proof.
  intros Hlt. unfold df_drop.
  replace (forallb _ labels) with true; [reflexivity|].
  symmetry. apply forallb_forall. intros j Hj.
  apply Nat.ltb_lt, Hlt, list_elem_of_In, Hj.
Qed.

Section Properties.

Context {RS : RandomSource} {PR : Pyranges}.

(** ** The checks and draws that open every operator *)

Lemma size_chrom_lens_0 (s : Bedshift) :
  bool_decide (length (chrom_lens s) = 0%nat) = bool_decide (chrom_lens s = ∅).
Proof. apply bool_decide_ext, length_zero_iff_nil. Qed.

Lemma precheck_valid rate w :
  (0 <= rate)%Q -> (rate <= 1)%Q -> _precheck rate false false w = (Ok tt, w).
Proof.
  intros H0 H1. unfold _precheck, bind.
  apply Qlt_bool_false in H0, H1. now rewrite H0, H1.
Qed.

Lemma precheck_valid_lens rate w :
  (0 <= rate)%Q -> (rate <= 1)%Q -> chrom_lens (self w) <> ∅ ->
  _precheck rate true false w = (Ok tt, w).
Proof.
  intros H0 H1 Hne. unfold _precheck, bind, get_self.
  apply Qlt_bool_false in H0, H1. rewrite H0, H1. cbn.
  rewrite size_chrom_lens_0. now rewrite bool_decide_eq_false_2.
Qed.

Lemma precheck_add_valid rate w :
  (0 <= rate)%Q -> chrom_lens (self w) <> ∅ ->
  _precheck rate true true w = (Ok tt, w).
Proof.
  intros H0 Hne. unfold _precheck, bind, get_self.
  apply Qlt_bool_false in H0. rewrite H0. cbn.
  rewrite size_chrom_lens_0. now rewrite bool_decide_eq_false_2.
Qed.

Lemma precheck_invalid rate requiresChromLens w :
  (rate < 0)%Q \/ (1 < rate)%Q ->
  _precheck rate requiresChromLens false w = (Raise InvalidRate, w).
Proof.
  intros Hr. unfold _precheck, bind.
  replace (Qlt_bool rate 0 || Qlt_bool 1 rate) with true; [reflexivity|].
  symmetry. apply orb_true_iff.
  destruct Hr as [Hr|Hr]; [left|right]; now apply Qlt_bool_true.
Qed.

Lemma precheck_no_lens rate isAdd w :
  (0 <= rate)%Q -> (rate <= 1)%Q -> chrom_lens (self w) = ∅ ->
  _precheck rate true isAdd w = (Raise MissingChromosomeLengths, w).
Proof.
  intros H0 H1 He. unfold _precheck, bind, get_self.
  apply Qlt_bool_false in H0, H1. rewrite H0, H1.
  destruct isAdd; cbn; rewrite size_chrom_lens_0;
    now rewrite bool_decide_eq_true_2.
Qed.

Lemma random_sample_ok n k w :
  0 <= k -> k <= Z.of_nat n ->
  random_sample n k w =
  (Ok (sample n (Z.to_nat k) (rng w)).1,
   mkWorld (self w) (sample n (Z.to_nat k) (rng w)).2 (log w) (fs w)).
Proof.
  intros H0 Hn. unfold random_sample, draw.
  replace (k <? 0) with false by (symmetry; apply Z.ltb_ge; lia).
  replace (Z.of_nat n <? k) with false by (symmetry; apply Z.ltb_ge; lia).
  cbn. now destruct (sample n (Z.to_nat k) (rng w)).
Qed.

(** A sample of no rows returns the empty list and leaves the world,
    the generator included, as it was. *)
Lemma random_sample_0 n w : random_sample n 0 w = (Ok [], w).
Proof.
  rewrite random_sample_ok by lia. cbn. rewrite sample_0. cbn.
  now destruct w.
Qed.

(** The rows a rate selects are distinct positions of the table. *)
Lemma sampled_rows rows rate g :
  (0 <= rate)%Q -> (rate <= 1)%Q ->
  let k := Z.to_nat (rate_count rows rate) in
  let picked := (sample rows k g).1 in
  Z.of_nat (length picked) = rate_count rows rate /\
  NoDup picked /\ (forall j, j ∈ picked -> (j < rows)%nat).
Proof.
  intros H0 H1 k picked.
  pose proof (rate_count_nonneg rows rate H0) as Hk0.
  pose proof (rate_count_le rows rate H0 H1) as Hk1.
  assert (Hk : (k <= rows)%nat) by (unfold k; lia).
  split; [|split].
  - unfold picked. rewrite sample_length by exact Hk.
    unfold k. now rewrite Z2Nat.id by exact Hk0.
  - apply sample_NoDup, Hk.
  - intros j. apply sample_lt, Hk.
Qed.

(** ** cut *)

Lemma cut_loop_spec cut_rows new_row_list to_drop w :
  (forall j, j ∈ cut_rows -> (j < length (bed (self w)))%nat) ->
  exists pieces,
    Forall2 (cut_of (bed (self w))) cut_rows pieces /\
    cut_loop cut_rows (new_row_list, to_drop) w
    = (Ok (new_row_list ++ flat_map both pieces, to_drop ++ cut_rows), w).
Proof.
  revert new_row_list to_drop.
  induction cut_rows as [|row rest IH]; intros new_row_list to_drop Hlt.
  - exists []. split; [constructor|]. cbn. unfold ret. now rewrite !app_nil_r.
  - destruct (lookup_lt_is_Some_2 (bed (self w)) row) as [r Hr].
    { apply Hlt. left. }
    set (p := (mkRegion (chrom r) (start r) (thecut (start r) (end_ r)) Cut,
               mkRegion (chrom r) (thecut (start r) (end_ r)) (end_ r) Cut)).
    destruct (IH (new_row_list ++ both p) (to_drop ++ [row])) as (pieces & HF & Heq).
    { intros j Hj. apply Hlt. now right. }
    exists (p :: pieces). split.
    + constructor; [|exact HF]. exists r. split; [exact Hr|].
      unfold cut_pair, p. cbn. tauto.
    + cbn [cut_loop]. unfold bind, get_self, lift, _cut, loc. rewrite Hr.
      cbn [flat_map]. rewrite <- !app_assoc in Heq. exact Heq.
Qed.

(** C7.  For a rate in [0,1], [cut] returns the number k of sampled rows,
    k = int(rows * rate); the sampled rows are distinct; each of them is
    replaced by two regions tagged Cut, the first from the original start to
    the cut point and the second from the cut point to the original end; and
    the table has exactly k more rows than before. *)
Theorem cut_replaces_each_sampled_row_by_two rate w :
  (0 <= rate)%Q -> (rate <= 1)%Q ->
  exists (cut_rows : list nat) (pieces : list (Region * Region)) (w' : world),
    cut rate w = (Ok (Z.of_nat (length cut_rows)), w') /\
    Z.of_nat (length cut_rows)
      = rate_count (length (bed (self w))) rate /\
    NoDup cut_rows /\
    Forall2 (cut_of (bed (self w))) cut_rows pieces /\
    bed (self w') = drop_rows cut_rows (bed (self w)) ++ flat_map both pieces /\
    length (bed (self w')) = (length (bed (self w)) + length cut_rows)%nat.
Proof.
  intros H0 H1.
  set (rows := length (bed (self w))).
  set (k := Z.to_nat (rate_count rows rate)).
  destruct (sampled_rows rows rate (rng w) H0 H1) as (Hlen & Hnd & Hlt).
  fold k in Hlen, Hnd, Hlt.
  set (cut_rows := (sample rows k (rng w)).1) in *.
  set (w1 := mkWorld (self w) (sample rows k (rng w)).2 (log w) (fs w)).
  destruct (cut_loop_spec cut_rows [] [] w1 Hlt) as (pieces & HF & Hloop).
  eexists cut_rows, pieces, _. split; [|split; [exact Hlen|split; [exact Hnd|split; [exact HF|]]]].
  - unfold cut, bind. rewrite precheck_valid by assumption.
    unfold get_self at 1. cbn beta iota.
    rewrite random_sample_ok
      by (split || (apply rate_count_nonneg, H0) || (apply rate_count_le; assumption)).
    fold rows k cut_rows w1. rewrite Hloop. cbn beta iota.
    unfold get_self, lift, set_bed, ret. cbn [self bed app].
    rewrite df_drop_ok by exact Hlt. reflexivity.
  - cbn [self bed]. split; [reflexivity|].
    rewrite length_app.
    pose proof (length_drop_rows cut_rows (bed (self w)) Hnd Hlt) as Hd.
    assert (Hp : length (flat_map both pieces) = (2 * length cut_rows)%nat).
    { clear -HF. induction HF as [|row p rows' ps _ _ IH]; [reflexivity|].
      cbn [flat_map both length app]. rewrite IH. lia. }
    change (self w1) with (self w). fold rows in Hd |- *. lia.
Qed.

(** ** merge *)

Lemma _merge_spec s row :
  exists out, _merge s row = Ok out /\ merge_of (bed s) row out.
Proof.
  unfold _merge, loc.
  destruct (Nat.ltb (row + 1) (length (bed s))) eqn:Hlt; cbn [negb].
  - apply Nat.ltb_lt in Hlt.
    destruct (lookup_lt_is_Some_2 (bed s) (row + 1)) as [r' Hr']; [exact Hlt|].
    destruct (lookup_lt_is_Some_2 (bed s) row) as [r Hr]; [lia|].
    rewrite Hr, Hr'. case_bool_decide as Hc; cbn [negb].
    + eexists. split; [reflexivity|]. left. exists r, r'. auto.
    + eexists. split; [reflexivity|]. right. split; [|reflexivity].
      right. exists r, r'. auto.
  - apply Nat.ltb_ge in Hlt.
    eexists. split; [reflexivity|]. right. split; [|reflexivity].
    left. apply lookup_ge_None. lia.
Qed.

Lemma merge_of_labels df row out j :
  merge_of df row out -> j ∈ out.1 -> (j < length df)%nat.
Proof.
  intros [(r & r' & Hr & Hr' & _ & ->)|(_ & ->)]; cbn [fst]; intros Hj.
  - apply lookup_lt_Some in Hr, Hr'.
    apply elem_of_cons in Hj as [->|Hj]; [exact Hr|].
    apply list_elem_of_singleton in Hj as ->. exact Hr'.
  - inversion Hj.
Qed.

Lemma merge_loop_spec merge_rows to_add to_drop w :
  exists outs,
    Forall2 (merge_of (bed (self w))) merge_rows outs /\
    merge_loop merge_rows (to_add, to_drop) w
    = (Ok (to_add ++ omap snd outs, to_drop ++ concat outs.*1), w).
Proof.
  revert to_add to_drop.
  induction merge_rows as [|row rest IH]; intros to_add to_drop.
  - exists []. split; [constructor|]. cbn. unfold ret. now rewrite !app_nil_r.
  - destruct (_merge_spec (self w) row) as ([d a] & Hm & Hof).
    destruct (IH (match a with Some m => to_add ++ [m] | None => to_add end)
                 (to_drop ++ d)) as (outs & HF & Heq).
    exists ((d, a) :: outs). split; [constructor; assumption|].
    cbn [merge_loop]. unfold bind, get_self, lift. rewrite Hm.
    rewrite Heq. cbn [omap fmap list_fmap concat fst snd].
    destruct a as [m|]; cbn; now rewrite <- !app_assoc.
Qed.

Lemma merge_of_dropped df merge_rows outs i :
  Forall2 (merge_of df) merge_rows outs -> i ∈ concat outs.*1 ->
  exists j, j ∈ merge_rows /\ mergeable df j /\ (i = j \/ i = (j + 1)%nat).
Proof.
  intros HF. induction HF as [|row out rows' outs' Hof _ IH]; cbn.
  - intros Hi. inversion Hi.
  - intros Hi. apply elem_of_app in Hi as [Hi|Hi].
    + exists row. split; [left|].
      destruct Hof as [(r & r' & Hr & Hr' & Hc & ->)|(_ & ->)]; cbn [fst] in Hi.
      * split; [exists r, r'; auto|].
        apply elem_of_cons in Hi as [->|Hi]; [now left|].
        apply list_elem_of_singleton in Hi as ->. now right.
      * inversion Hi.
    + destruct (IH Hi) as (j & Hj & Hm & Hij). exists j. split; [now right|auto].
Qed.

(** C6 (amended).  For a rate in [0,1], [merge] returns the number of
    sampled rows, int(rows * rate), whatever the number of merges.  For
    each sampled row i, rows i and i+1 are merged only when row i+1 exists
    and lies on the chromosome of row i: then both rows are dropped and one
    region from the start of row i to the end of row i+1, tagged Merged, is
    appended.  A sample that fails drops nothing and adds nothing: a row
    stays in the table unless it is one of the two rows of a sampled pair
    that is merged. *)
Theorem merge_only_adjacent_rows_of_one_chromosome rate w :
  (0 <= rate)%Q -> (rate <= 1)%Q ->
  exists (merge_rows : list nat) (outs : list (list nat * option Region))
         (w' : world),
    merge rate w = (Ok (Z.of_nat (length merge_rows)), w') /\
    Z.of_nat (length merge_rows)
      = rate_count (length (bed (self w))) rate /\
    NoDup merge_rows /\
    Forall2 (merge_of (bed (self w))) merge_rows outs /\
    bed (self w') = drop_rows (concat outs.*1) (bed (self w)) ++ omap snd outs /\
    (forall i r,
        bed (self w) !! i = Some r ->
        (forall j, j ∈ merge_rows -> mergeable (bed (self w)) j ->
                   i <> j /\ i <> (j + 1)%nat) ->
        r ∈ bed (self w')).
Proof.
  intros H0 H1.
  set (rows := length (bed (self w))).
  set (k := Z.to_nat (rate_count rows rate)).
  destruct (sampled_rows rows rate (rng w) H0 H1) as (Hlen & Hnd & _).
  fold k in Hlen, Hnd.
  set (merge_rows := (sample rows k (rng w)).1) in *.
  set (w1 := mkWorld (self w) (sample rows k (rng w)).2 (log w) (fs w)).
  destruct (merge_loop_spec merge_rows [] [] w1) as (outs & HF & Hloop).
  change (self w1) with (self w) in HF.
  assert (Hlt : forall j, j ∈ concat outs.*1 -> (j < length (bed (self w)))%nat).
  { clear -HF. induction HF as [|row out rows' outs' Hof _ IH]; cbn.
    - intros j Hj. inversion Hj.
    - intros j Hj. apply elem_of_app in Hj as [Hj|Hj]; [|now apply IH].
      eapply merge_of_labels; eassumption. }
  eexists merge_rows, outs, _.
  split; [|split; [exact Hlen|split; [exact Hnd|split; [exact HF|]]]].
  - unfold merge, bind. rewrite precheck_valid by assumption.
    unfold get_self at 1. cbn beta iota.
    rewrite random_sample_ok
      by (split || (apply rate_count_nonneg, H0) || (apply rate_count_le; assumption)).
    fold rows k merge_rows w1. rewrite Hloop. cbn beta iota.
    unfold get_self, lift, set_bed, ret. cbn [self bed app].
    rewrite df_drop_ok by exact Hlt. reflexivity.
  - cbn [self bed]. split; [reflexivity|].
    intros i r Hi Hfree. apply elem_of_app. left.
    apply elem_of_drop_rows. exists i. split; [exact Hi|].
    intros Hin.
    destruct (merge_of_dropped _ _ _ _ HF Hin) as (j & Hj & Hm & Hij).
    destruct (Hfree j Hj Hm) as [Hne Hne']. destruct Hij; contradiction.
Qed.

(** ** drop *)

(** C5 (amended).  For a rate in [0,1], [drop] removes the int(rows * rate)
    sampled rows, which are distinct, and returns that count: the table
    keeps exactly the other rows.  The product is the product of floats,
    rounded: the count is the floor of the exact product or, when the
    product rounds up to an integer, its ceiling.  When no two rows of the
    table are identical, no remaining region is identical to a removed
    one. *)
Theorem drop_removes_the_sampled_rows rate w :
  (0 <= rate)%Q -> (rate <= 1)%Q ->
  exists (picked : list nat) (w' : world),
    drop rate w = (Ok (Z.of_nat (length picked)), w') /\
    (Z.of_nat (length picked) = rate_count (length (bed (self w))) rate /\
     Qfloor (exact_product (length (bed (self w))) rate)
     <= rate_count (length (bed (self w))) rate
     <= Qceiling (exact_product (length (bed (self w))) rate)) /\
    NoDup picked /\
    bed (self w') = drop_rows picked (bed (self w)) /\
    (length (bed (self w')) + length picked)%nat = length (bed (self w)) /\
    (NoDup (bed (self w)) ->
     forall j r, j ∈ picked -> bed (self w) !! j = Some r -> r ∉ bed (self w')).
Proof.
  intros H0 H1.
  set (rows := length (bed (self w))).
  set (k := Z.to_nat (rate_count rows rate)).
  destruct (sampled_rows rows rate (rng w) H0 H1) as (Hlen & Hnd & Hlt).
  fold k in Hlen, Hnd, Hlt.
  set (picked := (sample rows k (rng w)).1) in *.
  eexists picked, _.
  split; [|split; [split; [exact Hlen|now apply rate_count_between]
                  |split; [exact Hnd|]]].
  - unfold drop, bind. rewrite precheck_valid by assumption.
    unfold get_self at 1. cbn beta iota.
    rewrite random_sample_ok
      by (split || (apply rate_count_nonneg, H0) || (apply rate_count_le; assumption)).
    fold rows k picked.
    unfold get_self, lift, set_bed, ret. cbn [self bed].
    rewrite df_drop_ok by exact Hlt. reflexivity.
  - cbn [self bed]. split; [reflexivity|]. split.
    + apply length_drop_rows; assumption.
    + intros Hbed j r Hj Hr Hin.
      apply elem_of_drop_rows in Hin as (j' & Hr' & Hn).
      assert (j = j') by (eapply NoDup_lookup; eassumption).
      subst j'. contradiction.
Qed.

(** ** shift *)

Lemma normal_int_ok mean stdev w :
  (0 <= stdev)%Q ->
  normal_int mean stdev w =
  (Ok (normal mean stdev (rng w)).1,
   mkWorld (self w) (normal mean stdev (rng w)).2 (log w) (fs w)).
Proof.
  intros Hs. unfold normal_int, draw.
  apply Qlt_bool_false in Hs. rewrite Hs.
  now destruct (normal mean stdev (rng w)).
Qed.

Lemma _shift_spec row mean stdev w r len :
  (0 <= stdev)%Q ->
  bed (self w) !! row = Some r ->
  chrom_lens (self w) !! chrom r = Some len ->
  let d := (normal mean stdev (rng w)).1 in
  _shift row mean stdev w =
  (Ok (if (start r + d <? 0) || (len <? end_ r + d) then (None, None)
       else (Some row,
             Some (mkRegion (chrom r) (start r + d) (end_ r + d) Shifted))),
   mkWorld (self w) (normal mean stdev (rng w)).2 (log w) (fs w)).
Proof.
  intros Hs Hr Hlen d. unfold _shift, bind.
  rewrite normal_int_ok by exact Hs. fold d.
  unfold get_self, lift, loc, chrom_len_of, ret. cbn [self].
  rewrite Hr. cbn beta iota.
  destruct (start r + d <? 0); [reflexivity|].
  cbn [self orb]. rewrite Hlen. now destruct (len <? end_ r + d).
Qed.

Lemma shift_loop_spec mean stdev shift_rows :
  (0 <= stdev)%Q ->
  forall new_row_list to_drop num_shifted invalid_shifted w,
  (forall j, j ∈ shift_rows -> (j < length (bed (self w)))%nat) ->
  (forall r, r ∈ bed (self w) -> is_Some (chrom_lens (self w) !! chrom r)) ->
  exists (accepted : list (nat * Region)) (skipped : nat) (g : rng_state),
    shift_loop shift_rows mean stdev
      (new_row_list, to_drop, num_shifted, invalid_shifted) w
    = (Ok (new_row_list ++ accepted.*2, to_drop ++ accepted.*1,
           num_shifted + Z.of_nat (length accepted),
           invalid_shifted + Z.of_nat skipped),
       mkWorld (self w) g (log w) (fs w)) /\
    (length accepted + skipped)%nat = length shift_rows /\
    sublist accepted.*1 shift_rows /\
    Forall (shifted_of (bed (self w)) (chrom_lens (self w))) accepted.
Proof.
  intros Hs. induction shift_rows as [|row rest IH];
    intros new_row_list to_drop num_shifted invalid_shifted w Hlt Hin.
  - exists [], 0%nat, (rng w).
    split; [|split; [reflexivity|split; constructor]].
    cbn. unfold ret. rewrite !app_nil_r, !Z.add_0_r. now destruct w.
  - destruct (lookup_lt_is_Some_2 (bed (self w)) row) as [r Hr].
    { apply Hlt. left. }
    destruct (Hin r) as [len Hlen].
    { eapply list_elem_of_lookup_2, Hr. }
    pose proof (_shift_spec row mean stdev w r len Hs Hr Hlen) as Hstep.
    cbv zeta in Hstep.
    set (d := (normal mean stdev (rng w)).1) in *.
    set (w1 := mkWorld (self w) (normal mean stdev (rng w)).2 (log w) (fs w)) in *.
    assert (Hlt1 : forall j, j ∈ rest -> (j < length (bed (self w1)))%nat).
    { intros j Hj. apply Hlt. now right. }
    cbn [shift_loop]. unfold bind. rewrite Hstep.
    destruct ((start r + d <? 0) || (len <? end_ r + d)) eqn:Hout.
    + destruct (IH new_row_list to_drop num_shifted (invalid_shifted + 1) w1
                  Hlt1 Hin) as (accepted & skipped & g & Heq & Hcount & Hsub & HF).
      exists accepted, (S skipped), g. split; [|split; [|split]].
      * rewrite Heq. cbn [self log fs w1].
        now replace (invalid_shifted + 1 + Z.of_nat skipped)
          with (invalid_shifted + Z.of_nat (S skipped)) by lia.
      * cbn [length]. lia.
      * now apply sublist_cons.
      * exact HF.
    + set (r' := mkRegion (chrom r) (start r + d) (end_ r + d) Shifted).
      destruct (IH (new_row_list ++ [r']) (to_drop ++ [row]) (num_shifted + 1)
                  invalid_shifted w1 Hlt1 Hin)
        as (accepted & skipped & g & Heq & Hcount & Hsub & HF).
      exists ((row, r') :: accepted), skipped, g. split; [|split; [|split]].
      * rewrite Heq. cbn [self log fs w1 fmap list_fmap fst snd length].
        rewrite <- !app_assoc. cbn [app].
        now replace (num_shifted + 1 + Z.of_nat (length accepted))
          with (num_shifted + Z.of_nat (S (length accepted))) by lia.
      * cbn [length]. lia.
      * cbn [fmap list_fmap fst]. now apply sublist_skip.
      * constructor; [|exact HF].
        exists r, d. split; [exact Hr|]. split; [reflexivity|].
        apply orb_false_iff in Hout as [Hlo Hhi].
        apply Z.ltb_ge in Hlo, Hhi.
        split; [exact Hlo|]. exists len. split; [exact Hlen|exact Hhi].
Qed.


(** ** add *)

(** A key of the dict has a value. *)
Lemma dict_get_key (d : dict) c : c ∈ d.*1 -> is_Some (d !! c).
Proof.
  unfold lookup, dict_lookup.
  induction d as [|[key value] d IH]; cbn; intros Hc; [inversion Hc|].
  case_bool_decide as Hk; [eauto|].
  apply IH. apply elem_of_cons in Hc as [->|Hc]; [contradiction|exact Hc].
Qed.

Lemma chrom_len_lookups s chrom_strs w :
  (forall c, c ∈ chrom_strs -> is_Some (chrom_lens s !! c)) ->
  exists lens,
    mapM (fun chrom_str => lift (chrom_len_of s chrom_str)) chrom_strs w
    = (Ok lens, w) /\
    Forall2 (fun c len => chrom_lens s !! c = Some len) chrom_strs lens.
Proof.
  induction chrom_strs as [|c rest IH]; intros Hin.
  - exists []. split; [reflexivity|constructor].
  - destruct (Hin c) as [len Hlen]; [left|].
    destruct IH as (lens & Heq & HF).
    { intros c' Hc'. apply Hin. now right. }
    exists (len :: lens). split; [|constructor; assumption].
    cbn [mapM]. unfold bind, lift at 1, chrom_len_of at 1. rewrite Hlen.
    now rewrite Heq.
Qed.

Lemma pick_random_chroms_spec n w :
  chrom_lens (self w) <> ∅ ->
  exists (random_chroms : list (string * Z)) (g : rng_state),
    pick_random_chroms n w
    = (Ok random_chroms, mkWorld (self w) g (log w) (fs w)) /\
    length random_chroms = Z.to_nat n /\
    Forall (fun c => chrom_lens (self w) !! c.1 = Some c.2) random_chroms.
Proof.
  intros Hne.
  set (pop := (chrom_lens (self w)).*1).
  assert (Hpop : pop <> []).
  { unfold pop. intros He. now apply fmap_nil_inv in He. }
  set (drawn := choices pop (chrom_weights (self w)) (Z.to_nat n) (rng w)).
  set (w1 := mkWorld (self w) drawn.2 (log w) (fs w)).
  destruct (chrom_len_lookups (self w) drawn.1 w1) as (lens & Heq & HF).
  { intros c Hc. apply choices_elem in Hc. now apply dict_get_key. }
  assert (Hlen : length drawn.1 = Z.to_nat n) by now apply choices_length.
  exists (zip drawn.1 lens), drawn.2. split; [|split].
  - unfold pick_random_chroms, bind, get_self, random_choices, draw.
    fold pop drawn. destruct drawn as [cs g] eqn:Hd. cbn [fst snd] in *.
    fold w1. now rewrite Heq.
  - rewrite length_zip_with. apply Forall2_length in HF. lia.
  - clear -HF. induction HF as [|c len cs ls Hc _ IH]; constructor; assumption.
Qed.

Lemma add_regions_spec mean stdev random_chroms :
  (0 <= stdev)%Q ->
  forall w,
  Forall (fun c => chrom_lens (self w) !! c.1 = Some c.2 /\ 1 <= c.2)
         random_chroms ->
  exists (new_regions : list Region) (g : rng_state),
    mapM (add_region mean stdev) random_chroms w
    = (Ok new_regions, mkWorld (self w) g (log w) (fs w)) /\
    length new_regions = length random_chroms /\
    Forall (added_to (chrom_lens (self w))) new_regions.
Proof.
  intros Hs. induction random_chroms as [|[c len] rest IH]; intros w HF.
  - exists [], (rng w). split; [|split; [reflexivity|constructor]].
    cbn. unfold ret. now destruct w.
  - apply Forall_cons in HF as [[Hc Hlen] HF]. cbn [fst snd] in Hc, Hlen.
    set (s1 := randint 1 len (rng w)).
    set (w1 := mkWorld (self w) s1.2 (log w) (fs w)).
    set (l1 := normal mean stdev (rng w1)).
    set (w2 := mkWorld (self w) l1.2 (log w) (fs w)).
    destruct (IH w2 HF) as (new_regions & g & Heq & Hlen' & Hnew).
    exists (mkRegion c s1.1 (Z.min (s1.1 + l1.1) len) Added :: new_regions), g.
    split; [|split].
    + cbn [mapM]. unfold bind, add_region at 1, bind, random_randint, draw.
      replace (len <? 1) with false by (symmetry; apply Z.ltb_ge; lia).
      fold s1. destruct s1 as [st g1] eqn:Hs1. cbn [fst snd] in *. fold w1.
      rewrite normal_int_ok by exact Hs. fold l1. cbn [self log fs w1].
      fold w2. unfold ret at 1. now rewrite Heq.
    + cbn [length]. now rewrite Hlen'.
    + constructor; [|exact Hnew].
      split; [reflexivity|]. exists len. cbn [chrom start end_].
      pose proof (randint_range 1 len (rng w) Hlen) as Hr. fold s1 in Hr.
      split; [exact Hc|]. split; [exact Hr|]. split; [lia|].
      now exists l1.1.
Qed.

(** C8 (amended).  [add] on a dict of lengths that is not empty.  A
    negative rate is refused.  With a rate that is not negative, k is
    int(rows * rate), the product of floats: the floor of the exact product
    or, when the product rounds up to an integer, its ceiling.  With a
    negative deviation and k at least 1 the call fails with a ValueError
    and adds nothing.  With a deviation that is not negative and positive
    lengths, [add] returns k and appends k regions to the table: each of
    them is tagged Added, starts in [1, chromLen] of its chromosome and
    ends at min(start + length, chromLen) for the drawn length: never
    beyond chromLen, and at or below its start when the length is not
    positive. *)
Theorem add_appends_regions_within_bounds rate mean stdev w :
  chrom_lens (self w) <> ∅ ->
  let rows := length (bed (self w)) in
  let k := rate_count rows rate in
  ((rate < 0)%Q -> add rate mean stdev w = (Raise InvalidRate, w)) /\
  ((0 <= rate)%Q ->
   Qfloor (exact_product rows rate) <= k <= Qceiling (exact_product rows rate)) /\
  ((0 <= rate)%Q -> (stdev < 0)%Q -> 1 <= k ->
   exists w', add rate mean stdev w = (Raise ValueError, w') /\
              self w' = self w) /\
  ((0 <= rate)%Q -> (0 <= stdev)%Q ->
   (forall c len, chrom_lens (self w) !! c = Some len -> 1 <= len) ->
   exists (new_regions : list Region) (w' : world),
     add rate mean stdev w = (Ok k, w') /\
     Z.of_nat (length new_regions) = k /\
     bed (self w') = bed (self w) ++ new_regions /\
     Forall (added_to (chrom_lens (self w))) new_regions).
Proof.
  intros Hne rows k.
  destruct (pick_random_chroms_spec k w Hne)
    as (random_chroms & g1 & Hpick & Hlen & HF).
  set (w1 := mkWorld (self w) g1 (log w) (fs w)) in *.
  split; [|split; [|split]].
  - intros Hneg. unfold add, bind, _precheck, bind.
    apply Qlt_bool_true in Hneg. now rewrite Hneg.
  - intros H0. now apply rate_count_between.
  - intros H0 Hs Hk.
    destruct random_chroms as [|[c len] rest]; [cbn in Hlen; lia|].
    assert (Hfirst : exists w2,
               mapM (add_region mean stdev) ((c, len) :: rest) w1
               = (Raise ValueError, w2) /\ self w2 = self w).
    { cbn [mapM]. unfold bind, add_region at 1, bind, random_randint.
      destruct (len <? 1).
      - exists w1. split; reflexivity.
      - unfold draw. destruct (randint 1 len (rng w1)) as [st g2].
        unfold normal_int. apply Qlt_bool_true in Hs. rewrite Hs.
        eexists. split; reflexivity. }
    destruct Hfirst as (w2 & Hfirst & Hself).
    exists w2. split; [|exact Hself].
    unfold add, bind. rewrite precheck_add_valid by assumption.
    unfold get_self at 1. cbn beta iota. fold rows k.
    now rewrite Hpick, Hfirst.
  - intros H0 Hs Hpos.
    destruct (add_regions_spec mean stdev random_chroms Hs w1)
      as (new_regions & g2 & Hnew & Hlen' & Hadded).
    { eapply Forall_impl; [exact HF|]. intros c Hc. split; [exact Hc|].
      eapply Hpos, Hc. }
    eexists new_regions, _. split; [|split; [|split; [|exact Hadded]]].
    + unfold add, bind. rewrite precheck_add_valid by assumption.
      unfold get_self at 1. cbn beta iota. fold rows k.
      rewrite Hpick, Hnew. reflexivity.
    + rewrite Hlen', Hlen. apply Z2Nat.id, rate_count_nonneg, H0.
    + reflexivity.
Qed.

(** ** Failures come before the table is written *)

Lemma readonly_ret {A} (a : A) : readonly (ret a).
Proof. intros w. reflexivity. Qed.

Lemma readonly_raise {A} e : readonly (@raise RS A e).
Proof. intros w. reflexivity. Qed.

Lemma readonly_lift {A} (r : result A) : readonly (lift r).
Proof. intros w. reflexivity. Qed.

Lemma readonly_get_self : readonly get_self.
Proof. intros w. reflexivity. Qed.

Lemma readonly_warning ev : readonly (warning ev).
Proof. intros w. reflexivity. Qed.

Lemma readonly_draw {A} (f : rng_state -> A * rng_state) : readonly (draw f).
Proof. intros w. unfold draw. now destruct (f (rng w)). Qed.

Lemma readonly_read_bed fp : readonly (read_bed fp).
Proof. intros w. unfold read_bed. now destruct (fs w !! fp). Qed.

Lemma readonly_bind {A B} (m : M A) (k : A -> M B) :
  readonly m -> (forall a, readonly (k a)) -> readonly (bind m k).
Proof.
  intros Hm Hk w. unfold bind. specialize (Hm w).
  destruct (m w) as [[a|e] w1]; cbn [snd] in *; [|exact Hm].
  now rewrite Hk.
Qed.

Lemma readonly_mapM {A B} (f : A -> M B) l :
  (forall a, readonly (f a)) -> readonly (mapM f l).
Proof.
  intros Hf. induction l as [|a l IH]; cbn [mapM].
  - apply readonly_ret.
  - apply readonly_bind; [apply Hf|]. intros b.
    apply readonly_bind; [exact IH|]. intros bs. apply readonly_ret.
Qed.

Ltac readonly_step :=
  match goal with
  | |- readonly (bind _ _) => apply readonly_bind; [|intros]
  | |- readonly (ret _) => apply readonly_ret
  | |- readonly (raise _) => apply readonly_raise
  | |- readonly (lift _) => apply readonly_lift
  | |- readonly get_self => apply readonly_get_self
  | |- readonly (warning _) => apply readonly_warning
  | |- readonly (draw _) => apply readonly_draw
  | |- readonly (read_bed _) => apply readonly_read_bed
  | |- readonly (mapM _ _) => apply readonly_mapM; intros
  | |- readonly (if ?b then _ else _) => destruct b
  | |- readonly (match ?x with _ => _ end) => destruct x
  | H : _ |- _ => solve [apply H]
  end.

Ltac readonly_tac := repeat readonly_step.

Lemma readonly_precheck rate requiresChromLens isAdd :
  readonly (_precheck rate requiresChromLens isAdd).
Proof. unfold _precheck. readonly_tac. Qed.

Lemma readonly_random_sample n k : readonly (random_sample n k).
Proof. unfold random_sample. readonly_tac. Qed.

Lemma readonly_normal_int mean stdev : readonly (normal_int mean stdev).
Proof. unfold normal_int. readonly_tac. Qed.

Lemma readonly_find_overlap fp : readonly (_find_overlap fp).
Proof. unfold _find_overlap. readonly_tac. Qed.

Lemma readonly_pick_random_chroms n : readonly (pick_random_chroms n).
Proof. unfold pick_random_chroms, random_choices. readonly_tac. Qed.

Lemma readonly_add_region mean stdev c : readonly (add_region mean stdev c).
Proof.
  unfold add_region, random_randint. destruct c.
  pose proof readonly_normal_int. readonly_tac.
Qed.

Lemma readonly_shift_step row mean stdev : readonly (_shift row mean stdev).
Proof. unfold _shift. pose proof readonly_normal_int. readonly_tac. Qed.

Lemma readonly_shift_loop shift_rows mean stdev acc :
  readonly (shift_loop shift_rows mean stdev acc).
Proof.
  revert acc. induction shift_rows as [|row rest IH]; intros acc; cbn [shift_loop].
  - apply readonly_ret.
  - destruct acc as [[[? ?] ?] ?].
    apply readonly_bind; [apply readonly_shift_step|].
    intros [[d|] [r|]]; apply IH.
Qed.

Lemma readonly_cut_loop cut_rows acc : readonly (cut_loop cut_rows acc).
Proof.
  revert acc. induction cut_rows as [|row rest IH]; intros acc; cbn [cut_loop].
  - apply readonly_ret.
  - destruct acc. readonly_tac.
Qed.

Lemma readonly_merge_loop merge_rows acc : readonly (merge_loop merge_rows acc).
Proof.
  revert acc. induction merge_rows as [|row rest IH]; intros acc; cbn [merge_loop].
  - apply readonly_ret.
  - destruct acc. readonly_tac.
Qed.

Lemma total_ret {A} (a : A) : total (ret a).
Proof. intros w. eexists _, _. reflexivity. Qed.

Lemma total_get_self : total get_self.
Proof. intros w. eexists _, _. reflexivity. Qed.

Lemma total_set_bed df : total (set_bed df).
Proof. intros w. eexists _, _. reflexivity. Qed.

Lemma total_warning ev : total (warning ev).
Proof. intros w. eexists _, _. reflexivity. Qed.

Lemma total_bind {A B} (m : M A) (k : A -> M B) :
  total m -> (forall a, total (k a)) -> total (bind m k).
Proof.
  intros Hm Hk w. unfold bind. destruct (Hm w) as (a & w1 & ->). apply Hk.
Qed.

Ltac total_step :=
  match goal with
  | |- total (bind _ _) => apply total_bind; [|intros]
  | |- total (ret _) => apply total_ret
  | |- total get_self => apply total_get_self
  | |- total (set_bed _) => apply total_set_bed
  | |- total (warning _) => apply total_warning
  | |- total (if ?b then _ else _) => destruct b
  end.

Ltac total_tac := repeat total_step.

Lemma fails_clean_readonly {A} (m : M A) : readonly m -> fails_clean m.
Proof. intros Hm w e w' Heq. specialize (Hm w). now rewrite Heq in Hm. Qed.

Lemma fails_clean_total {A} (m : M A) : total m -> fails_clean m.
Proof. intros Hm w e w' Heq. destruct (Hm w) as (a & w1 & Hok). congruence. Qed.

(** A failure after steps that only read is a failure on the object as it
    was at entry. *)
Lemma fails_clean_bind {A B} (m : M A) (k : A -> M B) :
  readonly m -> (forall a, fails_clean (k a)) -> fails_clean (bind m k).
Proof.
  intros Hm Hk w e w' Heq. unfold bind in Heq. specialize (Hm w).
  destruct (m w) as [[a|e1] w1]; cbn [snd] in Hm.
  - rewrite <- Hm. eapply Hk, Heq.
  - congruence.
Qed.

Lemma fails_clean_try {A} (body handler : M A) :
  fails_clean body -> readonly handler ->
  fails_clean (try_except_ValueError body handler).
Proof.
  intros Hb Hh w e w' Heq. unfold try_except_ValueError in Heq.
  destruct (body w) as [[a|e1] w1] eqn:Hbody; [congruence|].
  assert (Hw1 : self w1 = self w) by (eapply Hb, Hbody).
  destruct e1; try (injection Heq as _ <-; exact Hw1).
  specialize (Hh w1). rewrite Heq in Hh. cbn [snd] in Hh. congruence.
Qed.

Ltac fails_clean_step :=
  match goal with
  | |- fails_clean (bind _ _) =>
      first [ apply fails_clean_bind; [solve [readonly_tac]|intros]
            | apply fails_clean_total; solve [total_tac] ]
  | |- fails_clean (ret _) => apply fails_clean_total, total_ret
  | |- fails_clean (raise _) => apply fails_clean_readonly, readonly_raise
  | |- fails_clean (if ?b then _ else _) => destruct b
  | |- fails_clean (match ?x with _ => _ end) => destruct x
  end.

Ltac fails_clean_tac := repeat fails_clean_step.

Lemma add_fails_clean rate mean stdev : fails_clean (add rate mean stdev).
Proof.
  unfold add.
  pose proof readonly_precheck. pose proof readonly_pick_random_chroms.
  pose proof readonly_add_region. fails_clean_tac.
Qed.

Lemma add_from_file_fails_clean fp rate : fails_clean (add_from_file fp rate).
Proof.
  unfold add_from_file.
  pose proof readonly_precheck. pose proof readonly_random_sample.
  fails_clean_tac.
Qed.

Lemma shift_fails_clean rate mean stdev shift_rows :
  fails_clean (shift rate mean stdev shift_rows).
Proof.
  unfold shift.
  pose proof readonly_precheck. pose proof readonly_random_sample.
  pose proof readonly_shift_loop. fails_clean_tac.
Qed.

Lemma shift_from_file_fails_clean fp rate mean stdev :
  fails_clean (shift_from_file fp rate mean stdev).
Proof.
  unfold shift_from_file.
  pose proof readonly_precheck. pose proof readonly_find_overlap.
  fails_clean_tac.
  apply fails_clean_try; [|apply readonly_raise].
  apply fails_clean_bind; [apply readonly_random_sample|].
  intros rows2shift. apply shift_fails_clean.
Qed.

Lemma cut_fails_clean rate : fails_clean (cut rate).
Proof.
  unfold cut.
  pose proof readonly_precheck. pose proof readonly_random_sample.
  pose proof readonly_cut_loop. fails_clean_tac.
Qed.

Lemma merge_fails_clean rate : fails_clean (merge rate).
Proof.
  unfold merge.
  pose proof readonly_precheck. pose proof readonly_random_sample.
  pose proof readonly_merge_loop. fails_clean_tac.
Qed.

Lemma drop_fails_clean rate : fails_clean (drop rate).
Proof.
  unfold drop.
  pose proof readonly_precheck. pose proof readonly_random_sample.
  fails_clean_tac.
Qed.

Lemma drop_from_file_fails_clean fp rate : fails_clean (drop_from_file fp rate).
Proof.
  unfold drop_from_file.
  pose proof readonly_find_overlap. pose proof readonly_random_sample.
  fails_clean_tac.
Qed.

(** C9.  Whatever operator is called and whatever makes it fail (an invalid
    rate, a missing length map, too few overlapping regions, no overlap at
    all, or any other error), the table is at the end of the failed call
    what it was at its entry. *)
Theorem failed_call_leaves_the_table_unchanged op w e w' :
  call op w = (Raise e, w') -> bed (self w') = bed (self w).
Proof.
  intros Hfail. f_equal. revert w e w' Hfail.
  change (fails_clean (call op)).
  destruct op; cbn [call].
  - apply add_fails_clean.
  - apply add_from_file_fails_clean.
  - apply shift_fails_clean.
  - apply shift_from_file_fails_clean.
  - apply cut_fails_clean.
  - apply merge_fails_clean.
  - apply drop_fails_clean.
  - apply drop_from_file_fails_clean.
Qed.

(** ** Rates outside [0,1] *)

Lemma raises_only_bind {A B} P (m : M A) (k : A -> M B) :
  raises_only P m -> (forall a, raises_only P (k a)) -> raises_only P (bind m k).
Proof.
  intros Hm Hk w e w' Heq. unfold bind in Heq.
  destruct (m w) as [[a|e1] w1] eqn:Hmw.
  - eapply Hk, Heq.
  - injection Heq as <- <-. eapply Hm, Hmw.
Qed.

Lemma raises_only_total {A} P (m : M A) : total m -> raises_only P m.
Proof. intros Hm w e w' Heq. destruct (Hm w) as (a & w1 & Hok). congruence. Qed.

Lemma raises_only_lift {A} (P : error -> Prop) (r : result A) :
  (forall e, r = Raise e -> P e) -> raises_only P (lift r).
Proof. intros Hr w e w' Heq. injection Heq as -> _. now apply Hr. Qed.

Lemma raises_only_mapM {A B} P (f : A -> M B) l :
  (forall a, raises_only P (f a)) -> raises_only P (mapM f l).
Proof.
  intros Hf. induction l as [|a l IH]; cbn [mapM].
  - apply raises_only_total, total_ret.
  - apply raises_only_bind; [apply Hf|]. intros b.
    apply raises_only_bind; [exact IH|]. intros bs.
    apply raises_only_total, total_ret.
Qed.

Lemma drop_from_file_accepts_any_rate_from_0 fp rate :
  (0 <= rate)%Q ->
  raises_only (fun e => e <> InvalidRate) (drop_from_file fp rate).
Proof.
  intros H0. unfold drop_from_file.
  apply Qlt_bool_false in H0. rewrite H0.
  destruct (Qeq_bool rate 0); [apply raises_only_total, total_ret|].
  apply raises_only_bind; [apply raises_only_total, total_get_self|]. intros s.
  apply raises_only_bind.
  { intros w e w' Heq. unfold read_bed in Heq.
    destruct (fs w !! fp); [discriminate|]. injection Heq as <- _. discriminate. }
  intros drop_bed. apply raises_only_bind.
  { apply raises_only_total. total_tac. }
  intros num_drop. apply raises_only_bind.
  { unfold _find_overlap.
    apply raises_only_bind; [apply raises_only_total, total_get_self|]. intros s'.
    apply raises_only_bind.
    { intros w e w' Heq. unfold read_bed in Heq.
      destruct (fs w !! fp); [discriminate|]. injection Heq as <- _. discriminate. }
    intros comparison_bed. case_bool_decide.
    - intros w e w' Heq. injection Heq as <- _. discriminate.
    - apply raises_only_total, total_ret. }
  intros intersect_regions. apply raises_only_bind.
  { intros w e w' Heq. unfold random_sample, draw in Heq.
    destruct ((num_drop <? 0) || (Z.of_nat (length intersect_regions) <? num_drop)).
    - injection Heq as <- _. discriminate.
    - destruct (sample _ _ _). discriminate. }
  intros rows2drop. apply raises_only_bind.
  { apply raises_only_mapM. intros pos. apply raises_only_lift.
    unfold index_at. intros e He.
    destruct (intersect_regions !! pos) as [[label r]|]; [discriminate|].
    injection He as <-. discriminate. }
  intros labels. apply raises_only_bind; [apply raises_only_total, total_get_self|].
  intros s'. apply raises_only_bind.
  { apply raises_only_lift. unfold df_drop. intros e He.
    destruct (forallb _ _); [discriminate|]. injection He as <-. discriminate. }
  intros dropped. apply raises_only_total. total_tac.
Qed.

(** C4 (amended).  A rate outside [0,1] makes [shift], [shift_from_file],
    [cut], [merge] and [drop] fail with InvalidRate before anything is
    read, drawn or written.  [drop_from_file] refuses a negative rate the
    same way, but never refuses a rate for being above 1. *)
Theorem rate_outside_unit_interval_is_refused rate w :
  (rate < 0)%Q \/ (1 < rate)%Q ->
  (forall mean stdev shift_rows,
      shift rate mean stdev shift_rows w = (Raise InvalidRate, w)) /\
  (forall fp mean stdev,
      shift_from_file fp rate mean stdev w = (Raise InvalidRate, w)) /\
  cut rate w = (Raise InvalidRate, w) /\
  merge rate w = (Raise InvalidRate, w) /\
  drop rate w = (Raise InvalidRate, w) /\
  (forall fp,
      ((rate < 0)%Q -> drop_from_file fp rate w = (Raise InvalidRate, w)) /\
      ((1 < rate)%Q -> (drop_from_file fp rate w).1 <> Raise InvalidRate)).
Proof.
  intros Hr.
  pose proof (precheck_invalid rate true w Hr) as Ht.
  pose proof (precheck_invalid rate false w Hr) as Hf.
  repeat split.
  - intros. unfold shift, bind. now rewrite Ht.
  - intros. unfold shift_from_file, bind. now rewrite Hf.
  - unfold cut, bind. now rewrite Hf.
  - unfold merge, bind. now rewrite Hf.
  - unfold drop, bind. now rewrite Hf.
  - intros Hneg. unfold drop_from_file.
    apply Qlt_bool_true in Hneg. now rewrite Hneg.
  - intros Hbig Hfail.
    destruct (drop_from_file fp rate w) as [r w'] eqn:Heq. cbn [fst] in Hfail.
    subst r. eapply drop_from_file_accepts_any_rate_from_0; [|exact Heq|reflexivity].
    apply Qlt_le_weak. eapply Qlt_trans; [|exact Hbig]. reflexivity.
Qed.

(** ** A rate of exactly 0 *)

Lemma zero_rate_bounds rate : (rate == 0)%Q -> (0 <= rate)%Q /\ (rate <= 1)%Q.
Proof. intros Hr. rewrite Hr. split; discriminate. Qed.

(** With a rate of 0, [cut], [merge], [drop] and [drop_from_file] return 0
    and change nothing, the generator included; so do [shift] and [add] when
    the length map is not empty. *)
Lemma zero_rate_is_a_no_op rate w :
  (rate == 0)%Q ->
  cut rate w = (Ok 0, w) /\
  merge rate w = (Ok 0, w) /\
  drop rate w = (Ok 0, w) /\
  (forall fp, drop_from_file fp rate w = (Ok 0, w)) /\
  (chrom_lens (self w) <> ∅ ->
   (forall mean stdev, shift rate mean stdev None w = (Ok 0, w)) /\
   (forall mean stdev, add rate mean stdev w = (Ok 0, w))).
Proof.
  intros Hr. destruct (zero_rate_bounds rate Hr) as [H0 H1].
  pose proof (fun rows => rate_count_0 rows rate Hr) as Hk.
  repeat split.
  - unfold cut, bind. rewrite precheck_valid by assumption.
    unfold get_self at 1. cbn beta iota. rewrite Hk, random_sample_0.
    cbn [cut_loop]. unfold ret, get_self, lift, set_bed. cbn [self bed length].
    rewrite df_drop_ok by (intros j Hj; inversion Hj).
    rewrite drop_rows_nil, app_nil_r. now destruct w as [[? ? ?] ? ? ?].
  - unfold merge, bind. rewrite precheck_valid by assumption.
    unfold get_self at 1. cbn beta iota. rewrite Hk, random_sample_0.
    cbn [merge_loop]. unfold ret, get_self, lift, set_bed. cbn [self bed length].
    rewrite df_drop_ok by (intros j Hj; inversion Hj).
    rewrite drop_rows_nil, app_nil_r. now destruct w as [[? ? ?] ? ? ?].
  - unfold drop, bind. rewrite precheck_valid by assumption.
    unfold get_self at 1. cbn beta iota. rewrite Hk, random_sample_0.
    unfold ret, get_self, lift, set_bed. cbn [self bed length].
    rewrite df_drop_ok by (intros j Hj; inversion Hj).
    rewrite drop_rows_nil. now destruct w as [[? ? ?] ? ? ?].
  - intros fp. unfold drop_from_file.
    apply Qlt_bool_false in H0. rewrite H0.
    apply Qeq_bool_iff in Hr. now rewrite Hr.
  - intros mean stdev. unfold shift, bind.
    rewrite precheck_valid_lens by assumption.
    unfold get_self at 1. cbn beta iota. rewrite Hk, random_sample_0.
    cbn [shift_loop]. unfold ret, get_self, lift, set_bed. cbn [self bed length].
    rewrite df_drop_ok by (intros j Hj; inversion Hj).
    rewrite drop_rows_nil, app_nil_r. cbn. now destruct w as [[? ? ?] ? ? ?].
  - intros mean stdev. unfold add, bind.
    rewrite precheck_add_valid by assumption.
    unfold get_self at 1. cbn beta iota. rewrite Hk.
    unfold pick_random_chroms, bind, get_self, random_choices, draw.
    cbn [Z.to_nat]. rewrite choices_0. cbn [mapM zip zip_with].
    unfold ret, set_bed. cbn [mapM]. unfold ret. cbn [self bed rng log fs].
    rewrite app_nil_r. now destruct w as [[? ? ?] ? ? ?].
Qed.

Lemma no_overlap_is_empty reference comparison :
  Forall (fun r => existsb (overlaps r) comparison = false) reference ->
  length (overlap_first reference comparison) = 0%nat.
Proof.
  intros Hnone.
  rewrite <- (length_fmap snd), (overlap_first_rows reference comparison).
  induction Hnone as [|r rest Hr _ IH]; [reflexivity|].
  rewrite filter_cons, decide_False by congruence. exact IH.
Qed.

(** C10 (amended).  With a rate of exactly 0, [drop_from_file] returns 0 at
    once and changes nothing: the result is the same whatever the path is,
    even the path of no file, and whatever the sets overlap.  With a rate
    above 0, a file that can be read and no region of the original table
    overlapping it, the call fails with NoOverlapFound: the overlap is
    looked for in the original table, not in the working one. *)
Theorem drop_from_file_zero_rate_returns_at_once fp rate w :
  ((rate == 0)%Q -> drop_from_file fp rate w = (Ok 0, w)) /\
  ((0 < rate)%Q ->
   forall rows,
     fs w !! fp = Some rows ->
     Forall (fun r => existsb (overlaps r) (bed_table rows) = false)
            (original_bed (self w)) ->
     exists w',
       drop_from_file fp rate w = (Raise NoOverlapFound, w') /\
       self w' = self w /\ rng w' = rng w).
Proof.
  split.
  - intros Hr. now apply zero_rate_is_a_no_op.
  - intros Hpos rows Hfile Hnone.
    assert (Hlt : Qlt_bool rate 0 = false).
    { apply Qlt_bool_false, Qlt_le_weak, Hpos. }
    assert (Hne : Qeq_bool rate 0 = false).
    { destruct (Qeq_bool rate 0) eqn:E; [|reflexivity].
      apply Qeq_bool_iff in E. rewrite E in Hpos. discriminate. }
    pose proof (no_overlap_is_empty _ _ Hnone) as Hempty.
    unfold drop_from_file. rewrite Hlt, Hne.
    unfold bind, get_self at 1, read_bed at 1. rewrite Hfile.
    destruct (Z.of_nat (length (bed_table rows))
              <=? rate_count (length (bed (self w))) rate).
    + eexists. unfold warning, ret, _find_overlap, bind, get_self, read_bed.
      cbn [self fs]. rewrite Hfile.
      rewrite bool_decide_eq_true_2 by exact Hempty.
      unfold raise. split; [reflexivity|]. split; reflexivity.
    + eexists. unfold ret, _find_overlap, bind, get_self, read_bed.
      cbn [self fs]. rewrite Hfile.
      rewrite bool_decide_eq_true_2 by exact Hempty.
      unfold raise. split; [reflexivity|]. split; reflexivity.
Qed.

(** At a rate of 0 [shift_from_file] still reads the file and looks for the
    overlap: without any overlap it fails. *)
Lemma shift_from_file_zero_rate_needs_an_overlap fp rate mean stdev w rows :
  (rate == 0)%Q ->
  fs w !! fp = Some rows ->
  Forall (fun r => existsb (overlaps r) (bed_table rows) = false)
         (original_bed (self w)) ->
  shift_from_file fp rate mean stdev w = (Raise NoOverlapFound, w).
Proof.
  intros Hr Hfile Hnone. destruct (zero_rate_bounds rate Hr) as [H0 H1].
  pose proof (no_overlap_is_empty _ _ Hnone) as Hempty.
  unfold shift_from_file, bind. rewrite precheck_valid by assumption.
  unfold get_self at 1, read_bed at 1. rewrite Hfile.
  unfold _find_overlap, bind, get_self, read_bed. rewrite Hfile.
  now rewrite bool_decide_eq_true_2 by exact Hempty.
Qed.

(** C3, where the code departs from it.  When the length map is empty, a
    rate of 0 does not make [shift], [add] or [add_from_file] a no-op: each
    fails with MissingChromosomeLengths, and so does [all_perturbations]
    called with every rate at 0 and no file; [shift_from_file] fails too,
    whatever the file. *)
Theorem zero_rate_fails_without_chrom_lens rate w :
  (rate == 0)%Q -> chrom_lens (self w) = ∅ ->
  (forall mean stdev shift_rows,
      shift rate mean stdev shift_rows w = (Raise MissingChromosomeLengths, w)) /\
  (forall mean stdev,
      add rate mean stdev w = (Raise MissingChromosomeLengths, w)) /\
  (forall fp, add_from_file fp rate w = (Raise MissingChromosomeLengths, w)) /\
  (forall addmean addstdev shiftmean shiftstdev,
      all_perturbations rate addmean addstdev None rate shiftmean shiftstdev None
                        rate rate rate None w
      = (Raise MissingChromosomeLengths, w)) /\
  (forall fp mean stdev,
      exists e, shift_from_file fp rate mean stdev w = (Raise e, w)).
Proof.
  intros Hr He. destruct (zero_rate_bounds rate Hr) as [H0 H1].
  pose proof (fun isAdd => precheck_no_lens rate isAdd w H0 H1 He) as Hp.
  assert (Hshift : forall mean stdev shift_rows,
    shift rate mean stdev shift_rows w = (Raise MissingChromosomeLengths, w)).
  { intros. unfold shift, bind. now rewrite Hp. }
  split; [exact Hshift|]. split; [|split; [|split]].
  - intros. unfold add, bind. now rewrite Hp.
  - intros. unfold add_from_file, bind. now rewrite Hp.
  - intros. unfold all_perturbations, bind. cbn [given]. now rewrite Hshift.
  - intros fp mean stdev.
    unfold shift_from_file, bind. rewrite precheck_valid by assumption.
    unfold get_self at 1, read_bed at 1.
    destruct (fs w !! fp) as [rows|] eqn:Hfile; [|eexists; reflexivity].
    unfold _find_overlap, bind, get_self, read_bed. rewrite Hfile.
    case_bool_decide; [eexists; reflexivity|].
    unfold ret, try_except_ValueError, bind.
    rewrite (rate_count_0 _ rate Hr), random_sample_0, Hshift.
    eexists; reflexivity.
Qed.

(** ** shift_from_file *)

(** When more shifts are requested than regions of the original table
    overlap the file, [shift_from_file] fails and reports both counts. *)
Lemma shift_from_file_insufficient_overlap fp rate mean stdev w rows :
  (0 <= rate)%Q -> (rate <= 1)%Q ->
  fs w !! fp = Some rows ->
  let available := length (overlap_first (original_bed (self w)) (bed_table rows)) in
  let requested := rate_count (length (bed (self w))) rate in
  available <> 0%nat -> Z.of_nat available < requested ->
  shift_from_file fp rate mean stdev w
  = (Raise (InsufficientOverlap (Z.of_nat available) requested), w).
Proof.
  intros H0 H1 Hfile available requested Hsome Hfew.
  unfold shift_from_file, bind. rewrite precheck_valid by assumption.
  unfold get_self at 1, read_bed at 1. rewrite Hfile.
  unfold _find_overlap, bind, get_self, read_bed. rewrite Hfile.
  fold available. rewrite bool_decide_eq_false_2 by exact Hsome.
  unfold ret, try_except_ValueError, bind, random_sample.
  fold requested available.
  replace (Z.of_nat available <? requested) with true
    by (symmetry; apply Z.ltb_lt, Hfew).
  now destruct (requested <? 0).
Qed.

(** The only sample of one position among one. *)
Lemma sample_1_1 (g : rng_state) : (sample 1 1 g).1 = [0%nat].
Proof.
  pose proof (sample_length 1 1 g (le_n 1)) as Hlen.
  pose proof (sample_lt 1 1 g) as Hlt.
  destruct (sample 1 1 g).1 as [|i [|? ?]]; try discriminate Hlen.
  specialize (Hlt i (le_n 1)). f_equal.
  assert (i < 1)%nat by (apply Hlt; left). lia.
Qed.

(** C2, where the code departs from it.  Of three regions only the last
    overlaps the external file, and one shift is requested.  Whatever the
    generator and the resolver, the position sampled in the list of
    overlapping regions, 0, is used as a row of the working table: the
    first region, which overlaps nothing, is the one that is shifted (when
    the draw keeps it on the chromosome), and the overlapping region is
    never moved. *)
Theorem shift_from_file_shifts_a_row_outside_the_overlap (g : rng_state) mean stdev :
  (0 <= stdev)%Q ->
  let w := mkWorld Example.three g [] Example.three_files in
  existsb (overlaps (Example.chr1 0 100)) (bed_table Example.external) = false /\
  existsb (overlaps (Example.chr1 500 600)) (bed_table Example.external) = true /\
  exists n d w',
    shift_from_file "ext.bed" (2#5) mean stdev w = (Ok n, w') /\
    Example.chr1 500 600 ∈ bed (self w') /\
    (0 <= d <= 900 ->
     n = 1 /\
     bed (self w') = [Example.chr1 200 300; Example.chr1 500 600;
                      mkRegion "chr1" d (100 + d) Shifted]) /\
    (d < 0 \/ 900 < d -> n = 0 /\ bed (self w') = bed (self w)).
Proof.
  intros Hs w. split; [reflexivity|]. split; [reflexivity|].
  assert (Hfile : fs w !! "ext.bed" = Some Example.external) by reflexivity.
  assert (Hone : length (overlap_first (original_bed (self w))
                           (bed_table Example.external)) = 1%nat).
  { rewrite <- (length_fmap snd), overlap_first_rows. reflexivity. }
  assert (Hcount : rate_count (length (bed (self w))) (2#5) = 1) by reflexivity.
  set (g1 := (sample 1 1 g).2).
  set (w1 := mkWorld Example.three g1 [] Example.three_files).
  set (d := (normal mean stdev g1).1).
  set (w2 := mkWorld Example.three (normal mean stdev g1).2 [] Example.three_files).
  assert (Hstep : _shift 0 mean stdev w1 =
    (Ok (if (0 + d <? 0) || (1000 <? 100 + d) then (None, None)
         else (Some 0%nat, Some (mkRegion "chr1" (0 + d) (100 + d) Shifted))),
     w2)).
  { apply (_shift_spec 0 mean stdev w1 (Example.chr1 0 100) 1000 Hs);
      reflexivity. }
  assert (Hhead : exists n w',
    shift_from_file "ext.bed" (2#5) mean stdev w = (Ok n, w') /\
    (n, bed (self w')) =
    (if (0 + d <? 0) || (1000 <? 100 + d) then (0, bed (self w))
     else (1, [Example.chr1 200 300; Example.chr1 500 600;
               mkRegion "chr1" (0 + d) (100 + d) Shifted]))).
  { unfold shift_from_file, bind.
    rewrite precheck_valid by (unfold Qle; simpl; lia).
    unfold get_self at 1, read_bed at 1. rewrite Hfile.
    unfold _find_overlap, bind, get_self, read_bed. rewrite Hfile.
    rewrite bool_decide_eq_false_2 by (rewrite Hone; discriminate).
    unfold ret, try_except_ValueError, bind. rewrite Hone, Hcount.
    rewrite random_sample_ok by lia.
    change (Z.to_nat 1) with 1%nat. rewrite sample_1_1.
    change (mkWorld (self w) (sample 1 1 (rng w)).2 (log w) (fs w)) with w1.
    unfold shift, bind.
    rewrite precheck_valid_lens
      by ((unfold Qle; simpl; lia) || discriminate).
    unfold get_self at 1, ret at 1. cbn [shift_loop]. unfold bind.
    rewrite Hstep.
    destruct ((0 + d <? 0) || (1000 <? 100 + d)).
    - eexists _, _. split; [reflexivity|]. reflexivity.
    - eexists _, _. split; [reflexivity|]. reflexivity. }
  destruct Hhead as (n & w' & Hrun & Hres).
  exists n, d, w'. split; [exact Hrun|].
  destruct ((0 + d <? 0) || (1000 <? 100 + d)) eqn:Hout;
    injection Hres as -> ->.
  - apply orb_true_iff in Hout as [Hout|Hout]; apply Z.ltb_lt in Hout.
    all: split; [do 2 right; left|];
         (split; [intros ?; lia|]); intros _; split; reflexivity.
  - apply orb_false_iff in Hout as [Hlo Hhi]. apply Z.ltb_ge in Hlo, Hhi.
    split; [right; left|].
    split; [intros _; split; reflexivity|]. intros ?; lia.
Qed.

End Properties.

(** * More of the engine *)

Section MoreProperties.

Context {RS : RandomSource} {PR : Pyranges}.

(** ** What no operator touches *)

Lemma frame_ret {A} (a : A) : frame (ret a).
Proof. intros w. auto. Qed.

Lemma frame_raise {A} e : frame (@raise RS A e).
Proof. intros w. auto. Qed.

Lemma frame_lift {A} (r : result A) : frame (lift r).
Proof. intros w. auto. Qed.

Lemma frame_get_self : frame get_self.
Proof. intros w. auto. Qed.

Lemma frame_set_bed df : frame (set_bed df).
Proof. intros w. auto. Qed.

Lemma frame_warning ev : frame (warning ev).
Proof. intros w. auto. Qed.

Lemma frame_draw {A} (f : rng_state -> A * rng_state) : frame (draw f).
Proof. intros w. unfold draw. destruct (f (rng w)). auto. Qed.

Lemma frame_read_bed fp : frame (read_bed fp).
Proof. intros w. unfold read_bed. destruct (fs w !! fp); auto. Qed.

Lemma frame_bind {A B} (m : M A) (k : A -> M B) :
  frame m -> (forall a, frame (k a)) -> frame (bind m k).
Proof.
  intros Hm Hk w. unfold bind. specialize (Hm w).
  destruct (m w) as [[a|e] w1]; cbn [snd] in *; [|exact Hm].
  destruct Hm as (Ho & Hc & Hf). destruct (Hk a w1) as (Ho' & Hc' & Hf').
  repeat split; congruence.
Qed.

Lemma frame_try {A} (body handler : M A) :
  frame body -> frame handler -> frame (try_except_ValueError body handler).
Proof.
  intros Hb Hh w. unfold try_except_ValueError. specialize (Hb w).
  destruct (body w) as [[a|e] w1]; cbn [snd] in *; [exact Hb|].
  destruct e; try exact Hb.
  destruct Hb as (Ho & Hc & Hf). destruct (Hh w1) as (Ho' & Hc' & Hf').
  repeat split; congruence.
Qed.

Lemma frame_mapM {A B} (f : A -> M B) l :
  (forall a, frame (f a)) -> frame (mapM f l).
Proof.
  intros Hf. induction l as [|a l IH]; cbn [mapM].
  - apply frame_ret.
  - apply frame_bind; [apply Hf|]. intros b.
    apply frame_bind; [exact IH|]. intros bs. apply frame_ret.
Qed.

Ltac frame_step :=
  match goal with
  | |- frame (bind _ _) => apply frame_bind; [|intros]
  | |- frame (try_except_ValueError _ _) => apply frame_try
  | |- frame (ret _) => apply frame_ret
  | |- frame (raise _) => apply frame_raise
  | |- frame (lift _) => apply frame_lift
  | |- frame get_self => apply frame_get_self
  | |- frame (set_bed _) => apply frame_set_bed
  | |- frame (warning _) => apply frame_warning
  | |- frame (draw _) => apply frame_draw
  | |- frame (read_bed _) => apply frame_read_bed
  | |- frame (mapM _ _) => apply frame_mapM; intros
  | |- frame (if ?b then _ else _) => destruct b
  | |- frame (match ?x with _ => _ end) => destruct x
  | H : _ |- _ => solve [apply H]
  end.

Ltac frame_tac := repeat frame_step.

Lemma frame_precheck rate requiresChromLens isAdd :
  frame (_precheck rate requiresChromLens isAdd).
Proof. unfold _precheck. frame_tac. Qed.

Lemma frame_random_sample n k : frame (random_sample n k).
Proof. unfold random_sample. frame_tac. Qed.

Lemma frame_normal_int mean stdev : frame (normal_int mean stdev).
Proof. unfold normal_int. frame_tac. Qed.

Lemma frame_find_overlap fp : frame (_find_overlap fp).
Proof. unfold _find_overlap. frame_tac. Qed.

Lemma frame_shift_loop shift_rows mean stdev acc :
  frame (shift_loop shift_rows mean stdev acc).
Proof.
  revert acc. induction shift_rows as [|row rest IH]; intros acc; cbn [shift_loop].
  - apply frame_ret.
  - destruct acc as [[[? ?] ?] ?].
    apply frame_bind.
    + unfold _shift. pose proof frame_normal_int. frame_tac.
    + intros [[d|] [r|]]; apply IH.
Qed.

Lemma frame_cut_loop cut_rows acc : frame (cut_loop cut_rows acc).
Proof.
  revert acc. induction cut_rows as [|row rest IH]; intros acc; cbn [cut_loop].
  - apply frame_ret.
  - destruct acc. frame_tac.
Qed.

Lemma frame_merge_loop merge_rows acc : frame (merge_loop merge_rows acc).
Proof.
  revert acc. induction merge_rows as [|row rest IH]; intros acc; cbn [merge_loop].
  - apply frame_ret.
  - destruct acc. frame_tac.
Qed.

Lemma frame_shift rate mean stdev shift_rows :
  frame (shift rate mean stdev shift_rows).
Proof.
  unfold shift.
  pose proof frame_precheck. pose proof frame_random_sample.
  pose proof frame_shift_loop. frame_tac.
Qed.

Lemma frame_add rate mean stdev : frame (add rate mean stdev).
Proof.
  unfold add, pick_random_chroms, random_choices, add_region, random_randint.
  pose proof frame_precheck. pose proof frame_normal_int. frame_tac.
Qed.

Lemma frame_call op : frame (call op).
Proof.
  pose proof frame_precheck. pose proof frame_random_sample.
  pose proof frame_find_overlap. pose proof frame_cut_loop.
  pose proof frame_merge_loop. pose proof frame_shift. pose proof frame_add.
  destruct op; cbn [call].
  - apply frame_add.
  - unfold add_from_file. frame_tac.
  - apply frame_shift.
  - unfold shift_from_file. frame_tac.
  - unfold cut. frame_tac.
  - unfold merge. frame_tac.
  - unfold drop. frame_tac.
  - unfold drop_from_file. frame_tac.
Qed.

(** X1.  Whatever operator is called, and whether the call succeeds or
    fails, it leaves the original table, the length map and the files as
    they were; so [reset_bed] after the call always brings the working
    table back to the table as loaded. *)
Theorem operators_keep_the_original_table op w :
  original_bed (self (call op w).2) = original_bed (self w) /\
  chrom_lens (self (call op w).2) = chrom_lens (self w) /\
  fs (call op w).2 = fs w /\
  bed (self (reset_bed (call op w).2).2) = original_bed (self w).
Proof.
  destruct (frame_call op w) as (Ho & Hc & Hf).
  split; [exact Ho|]. split; [exact Hc|]. split; [exact Hf|].
  unfold reset_bed, bind, get_self, set_bed. cbn [snd self bed]. exact Ho.
Qed.

(** ** The pipeline *)

(** X2.  With a length map that is not empty, no file and every rate at 0,
    [all_perturbations] returns 0 and changes nothing, the generator
    included. *)
Theorem all_perturbations_at_zero_rates_is_a_no_op
    addrate addmean addstdev shiftrate shiftmean shiftstdev
    cutrate mergerate droprate w :
  chrom_lens (self w) <> ∅ ->
  (addrate == 0)%Q -> (shiftrate == 0)%Q -> (cutrate == 0)%Q ->
  (mergerate == 0)%Q -> (droprate == 0)%Q ->
  all_perturbations addrate addmean addstdev None
                    shiftrate shiftmean shiftstdev None
                    cutrate mergerate droprate None w
  = (Ok 0, w).
Proof.
  intros Hne Ha Hs Hc Hm Hd.
  destruct (zero_rate_is_a_no_op addrate w Ha) as (_ & _ & _ & _ & Hadd).
  destruct (zero_rate_is_a_no_op shiftrate w Hs) as (_ & _ & _ & _ & Hshift).
  destruct (zero_rate_is_a_no_op cutrate w Hc) as (Hcut & _).
  destruct (zero_rate_is_a_no_op mergerate w Hm) as (_ & Hmerge & _).
  destruct (zero_rate_is_a_no_op droprate w Hd) as (_ & _ & Hdrop & _).
  unfold all_perturbations, bind. cbn [given].
  rewrite (proj1 (Hshift Hne)), (proj2 (Hadd Hne)), Hcut, Hmerge, Hdrop.
  reflexivity.
Qed.

(** X3.  With a length map that is not empty and no file, a pipeline in
    which one stage only has a rate other than 0 does what that stage does
    alone: same result or same failure, same table, same generator state. *)
Theorem all_perturbations_with_one_stage
    (zero rate : Q) addmean addstdev shiftmean shiftstdev w :
  chrom_lens (self w) <> ∅ -> (zero == 0)%Q ->
  all_perturbations zero addmean addstdev None rate shiftmean shiftstdev None
                    zero zero zero None w
  = shift rate shiftmean shiftstdev None w /\
  all_perturbations rate addmean addstdev None zero shiftmean shiftstdev None
                    zero zero zero None w
  = add rate addmean addstdev w /\
  all_perturbations zero addmean addstdev None zero shiftmean shiftstdev None
                    rate zero zero None w
  = cut rate w /\
  all_perturbations zero addmean addstdev None zero shiftmean shiftstdev None
                    zero rate zero None w
  = merge rate w /\
  all_perturbations zero addmean addstdev None zero shiftmean shiftstdev None
                    zero zero rate None w
  = drop rate w.
Proof.
  intros Hne Hz.
  assert (Hnop : forall w1, chrom_lens (self w1) <> ∅ ->
    shift zero shiftmean shiftstdev None w1 = (Ok 0, w1) /\
    add zero addmean addstdev w1 = (Ok 0, w1) /\
    cut zero w1 = (Ok 0, w1) /\ merge zero w1 = (Ok 0, w1) /\
    drop zero w1 = (Ok 0, w1)).
  { intros w1 Hne1.
    destruct (zero_rate_is_a_no_op zero w1 Hz) as (Hc & Hm & Hd & _ & Hsa).
    destruct (Hsa Hne1) as [Hs Ha]. auto. }
  assert (Hkeep : forall op r w1, call op w = (r, w1) -> chrom_lens (self w1) <> ∅).
  { intros op r w1 Hrun. destruct (frame_call op w) as (_ & Hc & _).
    rewrite Hrun in Hc. cbn [snd] in Hc. now rewrite Hc. }
  destruct (Hnop w Hne) as (Hs0 & Ha0 & Hc0 & Hm0 & Hd0).
  unfold all_perturbations, bind. cbn [given]. repeat split.
  - destruct (shift rate shiftmean shiftstdev None w) as [[k|e] w1] eqn:Hrun;
      [|reflexivity].
    destruct (Hnop w1 (Hkeep (Call_shift rate shiftmean shiftstdev None) _ _ Hrun))
      as (_ & Ha1 & Hc1 & Hm1 & Hd1).
    rewrite Ha1, Hc1, Hm1, Hd1. unfold ret. do 2 f_equal. lia.
  - rewrite Hs0.
    destruct (add rate addmean addstdev w) as [[k|e] w1] eqn:Hrun; [|reflexivity].
    destruct (Hnop w1 (Hkeep (Call_add rate addmean addstdev) _ _ Hrun))
      as (_ & _ & Hc1 & Hm1 & Hd1).
    rewrite Hc1, Hm1, Hd1. unfold ret. do 2 f_equal. lia.
  - rewrite Hs0, Ha0.
    destruct (cut rate w) as [[k|e] w1] eqn:Hrun; [|reflexivity].
    destruct (Hnop w1 (Hkeep (Call_cut rate) _ _ Hrun)) as (_ & _ & _ & Hm1 & Hd1).
    rewrite Hm1, Hd1. unfold ret. do 2 f_equal. lia.
  - rewrite Hs0, Ha0, Hc0.
    destruct (merge rate w) as [[k|e] w1] eqn:Hrun; [|reflexivity].
    destruct (Hnop w1 (Hkeep (Call_merge rate) _ _ Hrun)) as (_ & _ & _ & _ & Hd1).
    rewrite Hd1. unfold ret. do 2 f_equal. lia.
  - rewrite Hs0, Ha0, Hc0, Hm0.
    destruct (drop rate w) as [[k|e] w1] eqn:Hrun; reflexivity.
Qed.

(** X4.  The pipeline is not all or nothing.  When a stage fails after the
    stages before it succeeded, [all_perturbations] fails with the error of
    that stage and the table keeps what the earlier stages made of it: here
    a shift that succeeds followed by an add that fails. *)
Theorem all_perturbations_keeps_the_stages_before_a_failure
    addrate addmean addstdev shiftrate shiftmean shiftstdev
    cutrate mergerate droprate dropfile w k w1 e w2 :
  shift shiftrate shiftmean shiftstdev None w = (Ok k, w1) ->
  add addrate addmean addstdev w1 = (Raise e, w2) ->
  all_perturbations addrate addmean addstdev None
                    shiftrate shiftmean shiftstdev None
                    cutrate mergerate droprate dropfile w
  = (Raise e, w2) /\
  bed (self w2) = bed (self w1).
Proof.
  intros Hshift Hadd. split.
  - unfold all_perturbations, bind. cbn [given]. now rewrite Hshift, Hadd.
  - f_equal. eapply add_fails_clean, Hadd.
Qed.

(** ** Where a region is cut *)

Lemma half_bounds a : 2 * (a / 2) <= a < 2 * (a / 2) + 2.
Proof.
  pose proof (Z.div_mod a 2 ltac:(lia)) as Hdm.
  pose proof (Z.mod_pos_bound a 2 ltac:(lia)) as Hmod. lia.
Qed.

Lemma int64_id z : - 2 ^ 63 <= z < 2 ^ 63 -> int64 z = z.
Proof.
  intros Hz. unfold int64. rewrite Z.mod_small; lia.
Qed.

Lemma int64_above z : 2 ^ 63 <= z < 2 ^ 64 -> int64 z = z - 2 ^ 64.
Proof.
  intros Hz. unfold int64.
  replace (z + 2 ^ 63) with (z - 2 ^ 63 + 1 * 2 ^ 64) by lia.
  rewrite Z.mod_add by lia. rewrite Z.mod_small; lia.
Qed.

(** X5.  [_cut] on a row of the table, its coordinates in the range of
    [int64].  When the sum of start and end stays in that range, a region
    of length 2 or more is cut at its midpoint: both pieces are regions of
    positive length and the second is as long as the first or one longer;
    a region of length 1 or less is cut 10 below its end: the first piece
    then ends before it starts and the second has length 10.  When the sum
    exceeds the range it wraps around to a negative number, and a region
    longer than 10 is cut 10 above its start, wherever its midpoint is. *)
Theorem cut_point_lies_inside_from_length_2 s row r :
  bed s !! row = Some r ->
  - 2 ^ 63 <= start r < 2 ^ 63 -> - 2 ^ 63 <= end_ r < 2 ^ 63 ->
  exists p1 p2,
    _cut s row = Ok (row, [p1; p2]) /\
    (- 2 ^ 63 <= start r + end_ r < 2 ^ 63 -> start r + 2 <= end_ r ->
     end_ p1 = (start r + end_ r) / 2 /\
     start p1 < end_ p1 /\ start p2 < end_ p2 /\
     0 <= (end_ p2 - start p2) - (end_ p1 - start p1) <= 1) /\
    (- 2 ^ 63 <= start r + end_ r < 2 ^ 63 -> end_ r < start r + 2 ->
     start r + 10 < 2 ^ 63 -> - 2 ^ 63 <= end_ r - 10 ->
     end_ p1 = end_ r - 10 /\ end_ p1 < start p1 /\ end_ p2 - start p2 = 10) /\
    (2 ^ 63 <= start r + end_ r -> start r + 10 < end_ r ->
     end_ p1 = start r + 10 /\ end_ p1 - start p1 = 10 /\ start p2 < end_ p2).
Proof.
  intros Hr Hstart Hend. unfold _cut, loc. rewrite Hr.
  eexists _, _. split; [reflexivity|]. cbn [start end_].
  pose proof (half_bounds (start r + end_ r)) as Hhalf.
  unfold thecut. split; [|split].
  - intros Hsum Hlong. rewrite (int64_id (start r + end_ r)) by exact Hsum.
    destruct ((start r + end_ r) / 2 <=? start r) eqn:Hlo;
      [apply Z.leb_le in Hlo; lia|].
    apply Z.leb_gt in Hlo.
    destruct (end_ r <=? (start r + end_ r) / 2) eqn:Hhi;
      [apply Z.leb_le in Hhi; lia|].
    apply Z.leb_gt in Hhi. lia.
  - intros Hsum Hshort Hup Hdown.
    rewrite (int64_id (start r + end_ r)) by exact Hsum.
    rewrite (int64_id (start r + 10)) by lia.
    rewrite (int64_id (end_ r - 10)) by lia.
    destruct ((start r + end_ r) / 2 <=? start r) eqn:Hlo;
      [|apply Z.leb_gt in Hlo; lia].
    destruct (end_ r <=? start r + 10) eqn:Hhi;
      [|apply Z.leb_gt in Hhi; lia].
    lia.
  - intros Hsum Hlong.
    rewrite (int64_above (start r + end_ r)) by lia.
    rewrite (int64_id (start r + 10)) by lia.
    pose proof (half_bounds (start r + end_ r - 2 ^ 64)) as Hwrapped.
    destruct ((start r + end_ r - 2 ^ 64) / 2 <=? start r) eqn:Hlo;
      [|apply Z.leb_gt in Hlo; lia].
    destruct (end_ r <=? start r + 10) eqn:Hhi;
      [apply Z.leb_le in Hhi; lia|].
    lia.
Qed.

(** ** The last row in merge *)

(** X6.  [_merge] never fails, whatever the row it is given; for the last
    row of the table, and for any row beyond it, it has nothing to drop and
    nothing to add. *)
Theorem last_row_is_never_merged s row :
  (exists out, _merge s row = Ok out) /\
  ((length (bed s) <= row + 1)%nat -> _merge s row = Ok ([], None)).
Proof.
  split.
  - destruct (_merge_spec s row) as (out & Hout & _). eauto.
  - intros Hlast. unfold _merge.
    replace (Nat.ltb (row + 1) (length (bed s))) with false; [reflexivity|].
    symmetry. apply Nat.ltb_ge. exact Hlast.
Qed.

(** ** add_from_file *)

Lemma loc_lookups (df : list Region) rows w :
  (forall j, j ∈ rows -> (j < length df)%nat) ->
  exists picked,
    mapM (fun row => lift (loc df row)) rows w = (Ok picked, w) /\
    Forall2 (fun j r => df !! j = Some r) rows picked.
Proof.
  induction rows as [|j rest IH]; intros Hlt.
  - exists []. split; [reflexivity|constructor].
  - destruct (lookup_lt_is_Some_2 df j) as [r Hr]; [apply Hlt; left|].
    destruct IH as (picked & Heq & HF).
    { intros j' Hj'. apply Hlt. now right. }
    exists (r :: picked). split; [|constructor; assumption].
    cbn [mapM]. unfold bind, lift at 1, loc at 1. rewrite Hr. now rewrite Heq.
Qed.

(** X7.  [add_from_file] with a rate that is not negative, a length map
    that is not empty and a file that can be read (a table of one row at
    least: pandas reads no table from an empty file) returns
    min(int(rows * rate), size of the file) and appends that many rows to
    the table: rows of the file at distinct positions, each tagged Added.
    The rows the table had are kept, in their order. *)
Theorem add_from_file_appends_rows_of_the_file fp rate w rows :
  (0 <= rate)%Q -> chrom_lens (self w) <> ∅ ->
  fs w !! fp = Some rows -> rows <> [] ->
  let num_add :=
    Z.min (rate_count (length (bed (self w))) rate)
          (Z.of_nat (length rows)) in
  exists (add_rows : list nat) (new_regions : list Region) (w' : world),
    add_from_file fp rate w = (Ok num_add, w') /\
    Z.of_nat (length add_rows) = num_add /\
    NoDup add_rows /\
    Forall2 (fun j r => exists c s e,
                 rows !! j = Some (c, s, e) /\ r = mkRegion c s e Added)
            add_rows new_regions /\
    bed (self w') = bed (self w) ++ new_regions.
Proof.
  intros H0 Hne Hfile _ num_add. subst num_add.
  set (n := length (bed (self w))).
  pose proof (rate_count_nonneg n rate H0) as Hk0.
  set (df := bed_table rows).
  assert (Hlen : length df = length rows) by apply length_map.
  set (k := if Z.of_nat (length df) <? rate_count n rate
            then Z.of_nat (length df) else rate_count n rate).
  assert (Hk : k = Z.min (rate_count n rate) (Z.of_nat (length rows))).
  { unfold k. rewrite Hlen.
    destruct (Z.of_nat (length rows) <? rate_count n rate) eqn:Hcmp.
    - apply Z.ltb_lt in Hcmp. lia.
    - apply Z.ltb_ge in Hcmp. lia. }
  assert (Hkm : (Z.to_nat k <= length df)%nat) by lia.
  set (add_rows := (sample (length df) (Z.to_nat k) (rng w)).1).
  set (w1 := mkWorld (self w) (sample (length df) (Z.to_nat k) (rng w)).2
                     (log w) (fs w)).
  destruct (loc_lookups df add_rows w1) as (picked & Hpick & HF).
  { intros j. apply sample_lt, Hkm. }
  exists add_rows,
    (map (fun r => mkRegion (chrom r) (start r) (end_ r) Added) picked).
  eexists. split; [|split; [|split; [|split]]].
  - unfold add_from_file, bind. rewrite precheck_add_valid by assumption.
    unfold get_self at 1, read_bed. rewrite Hfile. fold n df k.
    rewrite random_sample_ok by lia. fold add_rows w1. rewrite Hpick.
    unfold get_self, set_bed, ret. rewrite <- Hk. reflexivity.
  - unfold add_rows. rewrite sample_length by exact Hkm. lia.
  - apply sample_NoDup, Hkm.
  - clear -HF. induction HF as [|j r js rs Hj _ IH]; [constructor|].
    constructor; [|exact IH].
    unfold df, bed_table in Hj. rewrite list_lookup_fmap in Hj.
    destruct (rows !! j) as [[[c s] e]|]; [|discriminate].
    injection Hj as <-. exists c, s, e. auto.
  - reflexivity.
Qed.

(** ** A file that cannot be read *)

(** X8.  A path that cannot be read makes each from-file operator fail with
    UnreadableInput once its rate has passed the check, before anything is
    drawn or written. *)
Theorem unreadable_file_stops_the_from_file_operators fp rate w :
  fs w !! fp = None ->
  ((0 <= rate)%Q -> chrom_lens (self w) <> ∅ ->
   add_from_file fp rate w = (Raise UnreadableInput, w)) /\
  ((0 <= rate)%Q -> (rate <= 1)%Q ->
   forall mean stdev,
     shift_from_file fp rate mean stdev w = (Raise UnreadableInput, w)) /\
  ((0 < rate)%Q -> drop_from_file fp rate w = (Raise UnreadableInput, w)).
Proof.
  intros Hfile. split; [|split].
  - intros H0 Hne. unfold add_from_file, bind.
    rewrite precheck_add_valid by assumption.
    unfold get_self, read_bed. now rewrite Hfile.
  - intros H0 H1 mean stdev. unfold shift_from_file, bind.
    rewrite precheck_valid by assumption.
    unfold get_self, read_bed. now rewrite Hfile.
  - intros Hpos. unfold drop_from_file.
    replace (Qlt_bool rate 0) with false
      by (symmetry; apply Qlt_bool_false, Qlt_le_weak, Hpos).
    replace (Qeq_bool rate 0) with false.
    + unfold bind, get_self, read_bed. now rewrite Hfile.
    + symmetry. destruct (Qeq_bool rate 0) eqn:E; [|reflexivity].
      apply Qeq_bool_iff in E. rewrite E in Hpos. discriminate.
Qed.

(** ** The overlap with a file *)

Lemma existsb_false_elem_of {A} (f : A -> bool) (l : list A) :
  existsb f l = false <-> forall x, x ∈ l -> f x = false.
Proof.
  induction l as [|a l IH]; cbn.
  - split; [intros _ x Hx; inversion Hx|reflexivity].
  - rewrite orb_false_iff, IH. split.
    + intros [Ha Hl] x Hx. apply elem_of_cons in Hx as [->|Hx]; auto.
    + intros Hall. split; [apply Hall; left|].
      intros x Hx. apply Hall. now right.
Qed.

(** X9.  [_find_overlap] on a file that can be read (a table of one row at
    least) fails exactly when no region of the original table overlaps any
    region of the file, and then with NoOverlapFound only; when it succeeds
    it changes nothing and returns, each once, the regions of the original
    table that overlap a region of the file, at least one. *)
Theorem no_overlap_found_iff_every_pair_is_apart fp w rows :
  fs w !! fp = Some rows -> rows <> [] ->
  (_find_overlap fp w = (Raise NoOverlapFound, w) <->
   forall r c, r ∈ original_bed (self w) -> c ∈ bed_table rows ->
               overlaps r c = false) /\
  (forall e w', _find_overlap fp w = (Raise e, w') -> e = NoOverlapFound) /\
  (forall found w',
      _find_overlap fp w = (Ok found, w') ->
      w' = w /\ found <> [] /\
      found.*2 ≡ₚ filter (fun r => existsb (overlaps r) (bed_table rows) = true)
                         (original_bed (self w))).
Proof.
  intros Hfile _.
  assert (Hrun : _find_overlap fp w =
    if bool_decide (length (overlap_first (original_bed (self w))
                                          (bed_table rows)) = 0%nat)
    then (Raise NoOverlapFound, w)
    else (Ok (overlap_first (original_bed (self w)) (bed_table rows)), w)).
  { unfold _find_overlap, bind, get_self, read_bed. rewrite Hfile.
    now case_bool_decide. }
  rewrite Hrun. clear Hrun.
  pose proof (overlap_first_rows (original_bed (self w)) (bed_table rows)) as Hperm.
  case_bool_decide as Hlen; (split; [|split]).
  - split; [|reflexivity]. intros _ r c Hr Hc.
    assert (Hnil : filter (fun r => existsb (overlaps r) (bed_table rows) = true)
                          (original_bed (self w)) = []).
    { apply nil_length_inv. rewrite <- Hperm, length_fmap. exact Hlen. }
    destruct (existsb (overlaps r) (bed_table rows)) eqn:Hex.
    + exfalso. eapply filter_nil_not_elem_of; [exact Hnil| |exact Hr]. exact Hex.
    + eapply existsb_false_elem_of; eassumption.
  - intros e w' Heq. now injection Heq as <- _.
  - intros found w' Heq. discriminate Heq.
  - split; [discriminate|]. intros Hapart. exfalso. apply Hlen.
    apply no_overlap_is_empty. apply Forall_forall. intros r Hr.
    apply existsb_false_elem_of. intros c Hc. now apply Hapart.
  - intros e w' Heq. discriminate Heq.
  - intros found w' Heq. injection Heq as <- <-.
    split; [reflexivity|]. split; [|exact Hperm].
    intros Hnil. apply Hlen. now rewrite Hnil.
Qed.

(** ** shift_from_file *)

(** X10.  [shift_from_file] checks its rate without asking for the length
    map, but the [shift] it ends with asks for it: with an empty length map
    [shift_from_file] never succeeds, whatever the rate and the file, and
    the table is left as it was. *)
Theorem shift_from_file_needs_chrom_lens fp rate mean stdev w :
  chrom_lens (self w) = ∅ ->
  exists e w',
    shift_from_file fp rate mean stdev w = (Raise e, w') /\ self w' = self w.
Proof.
  intros He.
  assert (Hfail : exists e w', shift_from_file fp rate mean stdev w = (Raise e, w')).
  { unfold shift_from_file, bind.
    destruct (Qlt_bool rate 0 || Qlt_bool 1 rate) eqn:Hbad.
    - unfold _precheck, bind. rewrite Hbad. eexists _, _. reflexivity.
    - apply orb_false_iff in Hbad as [H0 H1].
      apply Qlt_bool_false in H0, H1.
      rewrite precheck_valid by assumption.
      unfold get_self at 1, read_bed at 1.
      destruct (fs w !! fp) as [rows|] eqn:Hfile; [|eexists _, _; reflexivity].
      unfold _find_overlap, bind, get_self, read_bed. rewrite Hfile.
      case_bool_decide; [eexists _, _; reflexivity|].
      unfold ret, try_except_ValueError, bind.
      pose proof (readonly_random_sample
                    (length (overlap_first (original_bed (self w)) (bed_table rows)))
                    (rate_count (length (bed (self w))) rate) w) as Hro.
      destruct (random_sample _ _ w) as [[rows2shift|e] w1]; cbn [snd] in Hro.
      + assert (He1 : chrom_lens (self w1) = ∅) by now rewrite Hro.
        assert (Hshift : shift rate mean stdev (Some rows2shift) w1
                         = (Raise MissingChromosomeLengths, w1)).
        { unfold shift, bind. now rewrite (precheck_no_lens rate false w1 H0 H1 He1). }
        rewrite Hshift. eexists _, _. reflexivity.
      + destruct e; eexists _, _; reflexivity. }
  destruct Hfail as (e & w' & Hrun). exists e, w'. split; [exact Hrun|].
  eapply shift_from_file_fails_clean, Hrun.
Qed.

(** X11.  The [try] of [shift_from_file] covers the call of [shift], so it
    also catches the ValueError numpy raises on a negative deviation: with
    enough overlapping regions for the shifts requested, at least one, and
    a negative deviation, the call fails with InsufficientOverlap, reporting
    an available count that is not below the requested one. *)
Theorem shift_from_file_reports_a_negative_deviation_as_missing_overlap
    fp rate mean stdev w rows :
  (0 <= rate)%Q -> (rate <= 1)%Q -> (stdev < 0)%Q ->
  chrom_lens (self w) <> ∅ -> fs w !! fp = Some rows ->
  let available := length (overlap_first (original_bed (self w)) (bed_table rows)) in
  let requested := rate_count (length (bed (self w))) rate in
  1 <= requested <= Z.of_nat available ->
  exists w',
    shift_from_file fp rate mean stdev w
    = (Raise (InsufficientOverlap (Z.of_nat available) requested), w') /\
    self w' = self w.
Proof.
  intros H0 H1 Hs Hne Hfile available requested Hreq.
  assert (Hrun : exists w',
    shift_from_file fp rate mean stdev w
    = (Raise (InsufficientOverlap (Z.of_nat available) requested), w')).
  { unfold shift_from_file, bind. rewrite precheck_valid by assumption.
    unfold get_self at 1, read_bed at 1. rewrite Hfile.
    unfold _find_overlap, bind, get_self, read_bed. rewrite Hfile.
    fold available. rewrite bool_decide_eq_false_2 by lia.
    unfold ret, try_except_ValueError, bind. fold requested.
    rewrite random_sample_ok by (fold available; lia). fold available.
    pose proof (sample_length available (Z.to_nat requested) (rng w)
                  ltac:(lia)) as Hlen.
    destruct (sample available (Z.to_nat requested) (rng w)).1 as [|row rest];
      [cbn in Hlen; lia|].
    unfold shift, bind.
    rewrite precheck_valid_lens by assumption.
    unfold get_self at 1, ret at 1. cbn [shift_loop]. unfold bind, _shift, bind.
    unfold normal_int.
    replace (Qlt_bool stdev 0) with true by (symmetry; now apply Qlt_bool_true).
    unfold raise. eexists. reflexivity. }
  destruct Hrun as (w' & Hrun). exists w'. split; [exact Hrun|].
  eapply shift_from_file_fails_clean, Hrun.
Qed.

(** ** A chromosome without a length *)


(** ** How many rows an operator leaves *)

Lemma sublist_drop_from i labels df : sublist (drop_from i labels df) df.
Proof.
  revert i. induction df as [|r df IH]; intros i; cbn; [constructor|].
  case_bool_decide; [apply sublist_cons|apply sublist_skip]; apply IH.
Qed.

(** Dropping labels, distinct or not, removes at most that many rows. *)
Lemma length_drop_rows_ge labels df :
  (length df <= length (drop_rows labels df) + length labels)%nat.
Proof.
  pose proof (length_drop_from 0 labels df) as Hlen. unfold drop_rows.
  assert (length (filter (fun j => j ∈ labels) (seq 0 (length df)))
          <= length labels)%nat; [|lia].
  apply submseteq_length, NoDup_submseteq.
  - apply NoDup_filter, NoDup_seq.
  - intros j Hj. now apply list_elem_of_filter in Hj as [Hj _].
Qed.

(** Distinct labels of the index that are all dropped count among the rows
    removed. *)
Lemma length_drop_rows_le labels df (hit : list nat) :
  NoDup hit ->
  (forall j, j ∈ hit -> j ∈ labels /\ (j < length df)%nat) ->
  (length (drop_rows labels df) + length hit <= length df)%nat.
Proof.
  intros Hnd Hhit.
  pose proof (length_drop_from 0 labels df) as Hlen. unfold drop_rows.
  assert (length hit
          <= length (filter (fun j => j ∈ labels) (seq 0 (length df))))%nat;
    [|lia].
  apply submseteq_length, NoDup_submseteq; [exact Hnd|].
  intros j Hj. destruct (Hhit j Hj) as [Hin Hlt].
  apply list_elem_of_filter. split; [exact Hin|]. apply elem_of_seq. lia.
Qed.

(** What a [shift] on a sample does, in one equation. *)
Lemma shift_on_a_sample rate mean stdev w :
  (0 <= rate)%Q -> (rate <= 1)%Q -> (0 <= stdev)%Q ->
  chrom_lens (self w) <> ∅ ->
  (forall r, r ∈ bed (self w) -> is_Some (chrom_lens (self w) !! chrom r)) ->
  let rows := length (bed (self w)) in
  let picked := (sample rows (Z.to_nat (rate_count rows rate)) (rng w)).1 in
  exists (accepted : list (nat * Region)) (skipped : nat) (w' : world),
    shift rate mean stdev None w = (Ok (Z.of_nat (length accepted)), w') /\
    bed (self w') = drop_rows accepted.*1 (bed (self w)) ++ accepted.*2 /\
    (length accepted + skipped)%nat = length picked /\
    sublist accepted.*1 picked /\
    Forall (shifted_of (bed (self w)) (chrom_lens (self w))) accepted.
Proof.
  intros H0 H1 Hs Hne Hin rows picked.
  destruct (sampled_rows rows rate (rng w) H0 H1) as (_ & _ & Hlt).
  fold picked in Hlt.
  set (w1 := mkWorld (self w)
               (sample rows (Z.to_nat (rate_count rows rate)) (rng w)).2
               (log w) (fs w)).
  destruct (shift_loop_spec mean stdev picked Hs [] [] 0 0 w1 Hlt Hin)
    as (accepted & skipped & g2 & Hloop & Hcount & Hsub & HF).
  cbn [self log fs w1 app] in Hloop, HF. rewrite !Z.add_0_l in Hloop.
  assert (Hdrop : forall j, j ∈ accepted.*1 -> (j < length (bed (self w)))%nat).
  { intros j Hj. apply Hlt. eapply elem_of_sublist; eassumption. }
  exists accepted, skipped,
    (mkWorld
       (mkBedshift (drop_rows accepted.*1 (bed (self w)) ++ accepted.*2)
                   (original_bed (self w)) (chrom_lens (self w)))
       g2
       (log w ++ (if 0 <? Z.of_nat skipped
                  then [WarnInvalidShifted (Z.of_nat skipped)] else []))
       (fs w)).
  split; [|split; [reflexivity|split; [exact Hcount|split; [exact Hsub|exact HF]]]].
  unfold shift, bind. rewrite precheck_valid_lens by assumption.
  unfold get_self at 1. cbn beta iota. fold rows.
  rewrite random_sample_ok
    by (split || (apply rate_count_nonneg, H0) || (apply rate_count_le; assumption)).
  fold picked w1. rewrite Hloop.
  unfold get_self, lift, set_bed, ret, warning. cbn [self bed log fs rng].
  rewrite df_drop_ok by exact Hdrop.
  destruct (0 <? Z.of_nat skipped); cbn; now rewrite ?app_nil_r.
Qed.

(** X13.  A [shift] on a sample never changes the number of regions: the
    table it leaves is the rows that were not moved, in their order,
    followed by one region tagged Shifted for each row that was; and the
    count it returns is at most the int(rows * rate) rows sampled. *)
Theorem shift_keeps_the_number_of_regions rate mean stdev w :
  (0 <= rate)%Q -> (rate <= 1)%Q -> (0 <= stdev)%Q ->
  chrom_lens (self w) <> ∅ ->
  (forall r, r ∈ bed (self w) -> is_Some (chrom_lens (self w) !! chrom r)) ->
  exists (kept moved : list Region) (w' : world),
    shift rate mean stdev None w = (Ok (Z.of_nat (length moved)), w') /\
    bed (self w') = kept ++ moved /\
    sublist kept (bed (self w)) /\
    Forall (fun r => tag r = Shifted) moved /\
    length (bed (self w')) = length (bed (self w)) /\
    Z.of_nat (length moved)
      <= rate_count (length (bed (self w))) rate.
Proof.
  intros H0 H1 Hs Hne Hin.
  destruct (shift_on_a_sample rate mean stdev w H0 H1 Hs Hne Hin)
    as (accepted & skipped & w' & Hrun & Hbed & Hcount & Hsub & HF).
  cbv zeta in Hcount, Hsub.
  destruct (sampled_rows (length (bed (self w))) rate (rng w) H0 H1)
    as (Hlen & Hnd & Hlt).
  set (picked := (sample (length (bed (self w)))
                    (Z.to_nat (rate_count (length (bed (self w))) rate))
                    (rng w)).1) in *.
  exists (drop_rows accepted.*1 (bed (self w))), accepted.*2, w'.
  rewrite length_fmap. split; [exact Hrun|]. split; [exact Hbed|].
  split; [apply sublist_drop_from|]. split; [|split].
  - apply Forall_fmap. eapply Forall_impl; [exact HF|].
    intros p (r & d & _ & Hp & _). unfold compose. now rewrite Hp.
  - rewrite Hbed, length_app, length_fmap.
    pose proof (length_drop_rows accepted.*1 (bed (self w))) as Hd.
    rewrite length_fmap in Hd. apply Hd.
    + eapply sublist_NoDup; eassumption.
    + intros j Hj. apply Hlt. eapply elem_of_sublist; eassumption.
  - rewrite <- Hlen. lia.
Qed.

(** What a [merge] does, in one equation. *)
Lemma merge_on_a_sample rate w :
  (0 <= rate)%Q -> (rate <= 1)%Q ->
  let rows := length (bed (self w)) in
  let picked := (sample rows (Z.to_nat (rate_count rows rate)) (rng w)).1 in
  exists (outs : list (list nat * option Region)) (w' : world),
    merge rate w = (Ok (Z.of_nat (length picked)), w') /\
    Forall2 (merge_of (bed (self w))) picked outs /\
    (forall j, j ∈ concat outs.*1 -> (j < length (bed (self w)))%nat) /\
    bed (self w') = drop_rows (concat outs.*1) (bed (self w)) ++ omap snd outs.
Proof.
  intros H0 H1 rows picked.
  set (w1 := mkWorld (self w)
               (sample rows (Z.to_nat (rate_count rows rate)) (rng w)).2
               (log w) (fs w)).
  destruct (merge_loop_spec picked [] [] w1) as (outs & HF & Hloop).
  change (self w1) with (self w) in HF.
  assert (Hlt : forall j, j ∈ concat outs.*1 -> (j < length (bed (self w)))%nat).
  { clear -HF. induction HF as [|row out rows' outs' Hof _ IH]; cbn.
    - intros j Hj. inversion Hj.
    - intros j Hj. apply elem_of_app in Hj as [Hj|Hj]; [|now apply IH].
      eapply merge_of_labels; eassumption. }
  exists outs. eexists. split; [|split; [exact HF|split; [exact Hlt|]]].
  - unfold merge, bind. rewrite precheck_valid by assumption.
    unfold get_self at 1. cbn beta iota.
    rewrite random_sample_ok
      by (split || (apply rate_count_nonneg, H0) || (apply rate_count_le; assumption)).
    fold rows picked w1. rewrite Hloop. cbn beta iota.
    unfold get_self, lift, set_bed, ret. cbn [self bed app].
    rewrite df_drop_ok by exact Hlt. reflexivity.
  - reflexivity.
Qed.

(** The sampled rows whose merge succeeds. *)
Lemma merged_rows df picked outs :
  Forall2 (merge_of df) picked outs ->
  exists hit,
    sublist hit picked /\ length hit = length (omap snd outs) /\
    (forall i, i ∈ hit -> i ∈ concat outs.*1 /\ (i + 1)%nat ∈ concat outs.*1) /\
    (hit = [] -> concat outs.*1 = []).
Proof.
  intros HF. induction HF as [|row out rows' outs' Hof _ (hit & Hsub & Hlen & Hin & Hnil)].
  - exists []. split; [constructor|]. split; [reflexivity|].
    split; [|reflexivity]. intros i Hi. inversion Hi.
  - destruct Hof as [(r & r' & _ & _ & _ & ->)|(_ & ->)].
    + exists (row :: hit). split; [now apply sublist_skip|].
      split; [cbn; now rewrite Hlen|]. split; [|discriminate].
      intros i Hi. cbn. apply elem_of_cons in Hi as [->|Hi].
      * split; [left|right; left].
      * destruct (Hin i Hi). split; do 2 right; assumption.
    + exists hit. split; [now apply sublist_cons|].
      split; [exact Hlen|]. split; [exact Hin|]. exact Hnil.
Qed.

(** X14.  [merge] never adds a row.  The table it leaves is rows of the old
    table, in their order, followed by the regions tagged Merged, at most
    one for each sampled row; with no merge the table is unchanged, and
    with at least one it has fewer rows than before. *)
Theorem merge_never_adds_a_row rate w :
  (0 <= rate)%Q -> (rate <= 1)%Q ->
  exists (k : Z) (kept merged : list Region) (w' : world),
    merge rate w = (Ok k, w') /\
    bed (self w') = kept ++ merged /\
    sublist kept (bed (self w)) /\
    Forall (fun r => tag r = Merged) merged /\
    Z.of_nat (length merged) <= k /\
    (merged = [] -> bed (self w') = bed (self w)) /\
    (merged <> [] -> (length (bed (self w')) < length (bed (self w)))%nat).
Proof.
  intros H0 H1.
  destruct (merge_on_a_sample rate w H0 H1) as (outs & w' & Hrun & HF & Hlt & Hbed).
  cbv zeta in Hrun, HF.
  destruct (sampled_rows (length (bed (self w))) rate (rng w) H0 H1)
    as (_ & Hnd & _).
  set (picked := (sample (length (bed (self w)))
                    (Z.to_nat (rate_count (length (bed (self w))) rate))
                    (rng w)).1) in *.
  destruct (merged_rows _ _ _ HF) as (hit & Hsub & Hlen & Hin & Hnil).
  assert (Hhit : NoDup hit) by (eapply sublist_NoDup; eassumption).
  eexists _, (drop_rows (concat outs.*1) (bed (self w))), (omap snd outs), w'.
  split; [exact Hrun|]. split; [exact Hbed|].
  split; [apply sublist_drop_from|]. split; [|split; [|split]].
  - clear -HF. induction HF as [|row out rows' outs' Hof _ IH]; [constructor|].
    destruct Hof as [(r & r' & _ & _ & _ & ->)|(_ & ->)]; cbn; [|exact IH].
    constructor; [reflexivity|exact IH].
  - rewrite <- Hlen. apply sublist_length in Hsub. lia.
  - intros Hnone. rewrite Hbed, Hnone, app_nil_r.
    rewrite Hnil; [apply drop_rows_nil|].
    apply nil_length_inv. now rewrite Hlen, Hnone.
  - intros Hsome. rewrite Hbed, length_app, <- Hlen.
    assert (Hne : hit <> []).
    { intros ->. apply Hsome. apply nil_length_inv. now rewrite <- Hlen. }
    pose proof (max_list_elem_of hit Hne) as Hmax.
    pose proof (length_drop_rows_le (concat outs.*1) (bed (self w))
                  ((max_list hit + 1)%nat :: hit)) as Hle.
    cbn [length] in Hle.
    assert (length (drop_rows (concat outs.*1) (bed (self w))) + S (length hit)
            <= length (bed (self w)))%nat; [|lia].
    apply Hle.
    + constructor; [|exact Hhit].
      apply max_list_not_elem_of_gt. lia.
    + intros j Hj. apply elem_of_cons in Hj as [->|Hj].
      * destruct (Hin _ Hmax) as [_ Hnext]. split; [exact Hnext|]. now apply Hlt.
      * destruct (Hin _ Hj) as [Hhere _]. split; [exact Hhere|]. now apply Hlt.
Qed.

(** ** drop_from_file *)

Lemma mapM_lift_ok {A B} (f : A -> result B) l w (bs : list B) w' :
  mapM (fun a => lift (f a)) l w = (Ok bs, w') ->
  w' = w /\ length bs = length l.
Proof.
  revert bs. induction l as [|a l IH]; intros bs; cbn [mapM].
  - intros Heq. injection Heq as <- <-. auto.
  - unfold bind, lift at 1. destruct (f a) as [b|e]; [|discriminate].
    destruct (mapM (fun a0 => lift (f a0)) l w) as [[bs'|e] w1] eqn:Hrest;
      [|discriminate].
    intros Heq. injection Heq as <- <-.
    destruct (IH bs' eq_refl) as [-> Hlen]. split; [reflexivity|].
    cbn. now rewrite Hlen.
Qed.

(** X15.  When [drop_from_file] with a rate above 0 succeeds, the count it
    returns is min(int(rows * rate), size of the file), it is at most the
    number of overlapping regions, and a warning is logged exactly when the
    size of the file does not exceed int(rows * rate).  The table it
    leaves is rows of the old table, in their order, and lacks at most as
    many of them as the count tells. *)
Theorem drop_from_file_drops_at_most_its_count fp rate w n w' :
  (0 < rate)%Q ->
  drop_from_file fp rate w = (Ok n, w') ->
  exists rows,
    let requested := rate_count (length (bed (self w))) rate in
    let size := Z.of_nat (length rows) in
    fs w !! fp = Some rows /\
    n = Z.min requested size /\
    0 <= n <= Z.of_nat (length (overlap_first (original_bed (self w))
                                               (bed_table rows))) /\
    log w' = log w ++ (if size <=? requested
                       then [WarnDropClamped requested size] else []) /\
    sublist (bed (self w')) (bed (self w)) /\
    Z.of_nat (length (bed (self w))) <= Z.of_nat (length (bed (self w'))) + n.
Proof.
  intros Hpos Hrun.
  assert (H0 : (0 <= rate)%Q) by apply Qlt_le_weak, Hpos.
  unfold drop_from_file in Hrun.
  replace (Qlt_bool rate 0) with false in Hrun
    by (symmetry; apply Qlt_bool_false, H0).
  replace (Qeq_bool rate 0) with false in Hrun.
  2:{ symmetry. destruct (Qeq_bool rate 0) eqn:E; [|reflexivity].
      apply Qeq_bool_iff in E. rewrite E in Hpos. discriminate. }
  unfold bind at 1, get_self at 1 in Hrun. unfold bind at 1, read_bed at 1 in Hrun.
  destruct (fs w !! fp) as [rows|] eqn:Hfile; [|discriminate].
  exists rows. cbv zeta.
  set (requested := rate_count (length (bed (self w))) rate) in *.
  pose proof (rate_count_nonneg (length (bed (self w))) rate H0) as Hreq.
  fold requested in Hreq.
  assert (Hsize : length (bed_table rows) = length rows) by apply length_map.
  rewrite Hsize in Hrun.
  set (size := Z.of_nat (length rows)) in *.
  set (num_drop := if size <=? requested then size else requested).
  set (w1 := mkWorld (self w) (rng w)
               (log w ++ (if size <=? requested
                          then [WarnDropClamped requested size] else []))
               (fs w)).
  assert (Hclamp :
    (if size <=? requested
     then bind (warning (WarnDropClamped requested size)) (fun _ => ret size)
     else ret requested) w = (Ok num_drop, w1)).
  { unfold num_drop, w1, bind, warning, ret.
    destruct (size <=? requested); [reflexivity|].
    rewrite app_nil_r. now destruct w. }
  unfold bind at 1 in Hrun. rewrite Hclamp in Hrun.
  assert (Hnum : num_drop = Z.min requested size).
  { unfold num_drop. destruct (size <=? requested) eqn:Hcmp.
    - apply Z.leb_le in Hcmp. lia.
    - apply Z.leb_gt in Hcmp. lia. }
  unfold bind at 1, _find_overlap, bind, get_self, read_bed in Hrun.
  cbn [self fs w1] in Hrun. rewrite Hfile in Hrun.
  set (found := overlap_first (original_bed (self w)) (bed_table rows)) in *.
  destruct (bool_decide (length found = 0%nat)); [discriminate|].
  unfold ret at 1, random_sample in Hrun.
  destruct ((num_drop <? 0) || (Z.of_nat (length found) <? num_drop)) eqn:Hcmp;
    [unfold raise in Hrun; discriminate|].
  apply orb_false_iff in Hcmp as [_ Hfit]. apply Z.ltb_ge in Hfit.
  unfold draw in Hrun. cbn [rng self log fs w1] in Hrun.
  destruct (sample (length found) (Z.to_nat num_drop) (rng w)) as [rows2drop g]
    eqn:Hsample.
  pose proof (sample_length (length found) (Z.to_nat num_drop) (rng w)
                ltac:(lia)) as Hlen.
  rewrite Hsample in Hlen. cbn [fst] in Hlen.
  destruct (mapM _ rows2drop _) as [[labels|e] w3] eqn:Hlabels; [|discriminate].
  apply mapM_lift_ok in Hlabels as [-> Hlabels].
  unfold get_self, lift, set_bed, ret in Hrun. cbn [self bed] in Hrun.
  unfold df_drop in Hrun.
  destruct (forallb _ labels); [|discriminate].
  injection Hrun as <- <-. cbn [self bed log].
  split; [reflexivity|]. split; [exact Hnum|]. split; [lia|].
  split; [reflexivity|]. split; [apply sublist_drop_from|].
  pose proof (length_drop_rows_ge labels (bed (self w))) as Hge. lia.
Qed.

(** ** The weights of the chromosomes *)

Lemma sum_of_quotients (t : Q) (lens : list Z) :
  (foldr Qplus (0 : Q) (map (fun len => inject_Z len / t) lens)
   == inject_Z (foldr Z.add 0%Z lens) / t)%Q.
Proof.
  induction lens as [|len lens IH]; cbn [map foldr].
  - unfold Qdiv. ring.
  - rewrite IH, inject_Z_plus. unfold Qdiv. ring.
Qed.

Lemma sum_of_positives (lens : list Z) :
  lens <> [] -> Forall (fun len => 1 <= len) lens -> 1 <= foldr Z.add 0 lens.
Proof.
  intros Hne Hpos. induction Hpos as [|len lens Hlen Hrest IH]; [congruence|].
  cbn [foldr]. destruct lens as [|len' lens'].
  - cbn. lia.
  - assert (1 <= foldr Z.add 0 (len' :: lens')) by (apply IH; discriminate). lia.
Qed.

Lemma sum_of_weights_near (eps : Q) (qs ws : list Q) :
  Forall2 (fun q w => (Qabs (w - q) <= eps)%Q) qs ws ->
  (Qabs (foldr Qplus (0 : Q) ws - foldr Qplus (0 : Q) qs)
   <= inject_Z (Z.of_nat (length qs)) * eps)%Q.
Proof.
  induction 1 as [|q w qs ws Hw _ IH]; cbn [foldr length].
  - change (inject_Z (Z.of_nat 0)) with 0%Q.
    apply Qabs_Qle_condition. split; lra.
  - rewrite Nat2Z.inj_succ, <- Z.add_1_r, inject_Z_plus.
    change (inject_Z 1) with 1%Q.
    apply Qabs_Qle_condition in Hw as [Hw1 Hw2].
    apply Qabs_Qle_condition in IH as [IH1 IH2].
    apply Qabs_Qle_condition. split; lra.
Qed.

Lemma part_of_the_sum (lens : list Z) (len : Z) :
  Forall (fun len => 1 <= len) lens -> len ∈ lens -> len <= foldr Z.add 0 lens.
Proof.
  intros Hlens Hlen.
  induction Hlens as [|len' lens Hlen' Hrest IH]; [inversion Hlen|].
  cbn [foldr]. apply elem_of_cons in Hlen as [->|Hlen].
  - destruct lens as [|x xs]; [cbn; lia|].
    assert (1 <= foldr Z.add 0 (x :: xs))
      by (apply sum_of_positives; [discriminate|exact Hrest]). lia.
  - specialize (IH Hlen). lia.
Qed.

(** X16.  For a dict of lengths that is not empty and holds positive
    lengths, [chrom_weights] gives [random.choices] one weight for each
    item of the dict, in the order of the dict.  The weight of an item is a
    float between 0 and 1, within 2^-53 of the share of its length in the
    total; so the weights add up to 1 within 2^-53 for each item. *)
Theorem chrom_weights_add_up_to_1 (s : Bedshift) :
  chrom_lens s <> ∅ ->
  Forall (fun item => 1 <= item.2) (chrom_lens s) ->
  let total_len := foldr Z.add 0 (chrom_lens s).*2 in
  Forall2 (fun item weight =>
             (0 <= weight)%Q /\ (weight <= 1)%Q /\
             (Qabs (weight - inject_Z item.2 / inject_Z total_len)
              <= 1 # 2 ^ 53)%Q)
          (chrom_lens s) (chrom_weights s) /\
  (Qabs (foldr Qplus (0 : Q) (chrom_weights s) - 1)
   <= inject_Z (Z.of_nat (length (chrom_lens s))) * (1 # 2 ^ 53))%Q.
Proof.
  intros Hne Hpos total_len. unfold chrom_weights. fold total_len.
  set (lens := (chrom_lens s).*2) in *.
  assert (Hlens : Forall (fun len => 1 <= len) lens).
  { apply Forall_fmap. exact Hpos. }
  assert (Hsome : lens <> []).
  { unfold lens. intros He. now apply fmap_nil_inv in He. }
  pose proof (sum_of_positives lens Hsome Hlens) as Htotal.
  fold total_len in Htotal.
  assert (Ht : (0 < inject_Z total_len)%Q).
  { change 0%Q with (inject_Z 0). rewrite <- Zlt_Qlt. lia. }
  assert (Hshare : forall len, len ∈ lens ->
            (0 <= inject_Z len / inject_Z total_len)%Q /\
            (inject_Z len / inject_Z total_len <= 1)%Q).
  { intros len Hlen.
    pose proof (part_of_the_sum lens len Hlens Hlen) as Hle.
    fold total_len in Hle.
    rewrite Forall_forall in Hlens. specialize (Hlens len Hlen). split.
    - apply Qle_shift_div_l; [exact Ht|]. rewrite Qmult_0_l.
      change 0%Q with (inject_Z 0). rewrite <- Zle_Qle. lia.
    - apply Qle_shift_div_r; [exact Ht|]. rewrite Qmult_1_l.
      rewrite <- Zle_Qle. exact Hle. }
  split.
  - unfold lens. rewrite map_map. apply Forall2_fmap_r, Forall_Forall2_diag.
    apply Forall_forall. intros [c len] Hitem. cbn [snd].
    destruct (Hshare len) as [H0 H1].
    { apply list_elem_of_fmap. now exists (c, len). }
    split; [now apply (binary64_ge _ 0)|].
    split; [now apply (binary64_le _ 1)|].
    now apply binary64_near.
  - assert (Hnear : (Qabs (foldr Qplus (0 : Q)
                       (map (fun len => binary64 (inject_Z len / inject_Z total_len)) lens)
                     - foldr Qplus (0 : Q)
                         (map (fun len => inject_Z len / inject_Z total_len)%Q lens))
                     <= inject_Z (Z.of_nat (length
                          (map (fun len => inject_Z len / inject_Z total_len)%Q lens)))
                        * (1 # 2 ^ 53))%Q).
    { apply sum_of_weights_near, Forall2_fmap, Forall_Forall2_diag.
      apply Forall_forall. intros len Hlen.
      destruct (Hshare len Hlen) as [H0 H1]. now apply binary64_near. }
    rewrite sum_of_quotients in Hnear. fold total_len in Hnear.
    rewrite length_map in Hnear.
    replace (length lens) with (length (chrom_lens s)) in Hnear
      by (unfold lens; now rewrite length_fmap).
    assert (Hone : (inject_Z total_len / inject_Z total_len == 1)%Q).
    { unfold Qdiv. apply Qmult_inv_r. intros Hz. rewrite Hz in Ht. discriminate. }
    now rewrite Hone in Hnear.
Qed.

(** ** Rates that select no row, and rates that select every row *)

Lemma nothing_sampled_is_a_no_op rate w :
  (0 <= rate)%Q ->
  rate_count (length (bed (self w))) rate = 0 ->
  ((rate <= 1)%Q ->
   cut rate w = (Ok 0, w) /\ merge rate w = (Ok 0, w) /\
   drop rate w = (Ok 0, w) /\
   (chrom_lens (self w) <> ∅ ->
    forall mean stdev, shift rate mean stdev None w = (Ok 0, w))) /\
  (chrom_lens (self w) <> ∅ ->
   forall mean stdev, add rate mean stdev w = (Ok 0, w)).
Proof.
  intros H0 Hk. split; [intros H1; repeat split|].
  - unfold cut, bind. rewrite precheck_valid by assumption.
    unfold get_self at 1. cbn beta iota. rewrite Hk, random_sample_0.
    cbn [cut_loop]. unfold ret, get_self, lift, set_bed. cbn [self bed length].
    rewrite df_drop_ok by (intros j Hj; inversion Hj).
    rewrite drop_rows_nil, app_nil_r. now destruct w as [[? ? ?] ? ? ?].
  - unfold merge, bind. rewrite precheck_valid by assumption.
    unfold get_self at 1. cbn beta iota. rewrite Hk, random_sample_0.
    cbn [merge_loop]. unfold ret, get_self, lift, set_bed. cbn [self bed length].
    rewrite df_drop_ok by (intros j Hj; inversion Hj).
    rewrite drop_rows_nil, app_nil_r. now destruct w as [[? ? ?] ? ? ?].
  - unfold drop, bind. rewrite precheck_valid by assumption.
    unfold get_self at 1. cbn beta iota. rewrite Hk, random_sample_0.
    unfold ret, get_self, lift, set_bed. cbn [self bed length].
    rewrite df_drop_ok by (intros j Hj; inversion Hj).
    rewrite drop_rows_nil. now destruct w as [[? ? ?] ? ? ?].
  - intros Hne mean stdev. unfold shift, bind.
    rewrite precheck_valid_lens by assumption.
    unfold get_self at 1. cbn beta iota. rewrite Hk, random_sample_0.
    cbn [shift_loop]. unfold ret, get_self, lift, set_bed. cbn [self bed length].
    rewrite df_drop_ok by (intros j Hj; inversion Hj).
    rewrite drop_rows_nil, app_nil_r. cbn. now destruct w as [[? ? ?] ? ? ?].
  - intros Hne mean stdev. unfold add, bind.
    rewrite precheck_add_valid by assumption.
    unfold get_self at 1. cbn beta iota. rewrite Hk.
    unfold pick_random_chroms, bind, get_self, random_choices, draw.
    cbn [Z.to_nat]. rewrite choices_0. cbn [mapM zip zip_with].
    unfold ret, set_bed. cbn [mapM]. unfold ret. cbn [self bed rng log fs].
    rewrite app_nil_r. now destruct w as [[? ? ?] ? ? ?].
Qed.

(** X17.  A rate in [0,1] too small to select one row, int(rows * rate)
    being 0, makes [cut], [merge], [drop], and with a length map that is
    not empty [shift] and [add], return 0 and change nothing: the table, the
    log and the generator are as they were. *)
Theorem a_rate_that_selects_no_row_does_nothing rate w :
  (0 <= rate)%Q -> (rate <= 1)%Q ->
  rate_count (length (bed (self w))) rate = 0 ->
  cut rate w = (Ok 0, w) /\ merge rate w = (Ok 0, w) /\
  drop rate w = (Ok 0, w) /\
  (chrom_lens (self w) <> ∅ ->
   forall mean stdev,
     shift rate mean stdev None w = (Ok 0, w) /\
     add rate mean stdev w = (Ok 0, w)).
Proof.
  intros H0 H1 Hfloor.
  destruct (nothing_sampled_is_a_no_op rate w H0 Hfloor) as [Hin Hadd].
  destruct (Hin H1) as (Hc & Hm & Hd & Hs).
  split; [exact Hc|]. split; [exact Hm|]. split; [exact Hd|].
  intros Hne mean stdev. split; [now apply Hs|now apply Hadd].
Qed.

(** X18.  On an empty table no operator does anything: [cut], [merge],
    [drop] and [shift] with a rate in [0,1], and [add] with any rate that
    is not negative, however large, return 0 and leave the table empty and
    the generator untouched. *)
Theorem operators_do_nothing_on_an_empty_table rate w :
  bed (self w) = [] -> (0 <= rate)%Q ->
  ((rate <= 1)%Q ->
   cut rate w = (Ok 0, w) /\ merge rate w = (Ok 0, w) /\
   drop rate w = (Ok 0, w) /\
   (chrom_lens (self w) <> ∅ ->
    forall mean stdev, shift rate mean stdev None w = (Ok 0, w))) /\
  (chrom_lens (self w) <> ∅ ->
   forall mean stdev, add rate mean stdev w = (Ok 0, w)).
Proof.
  intros Hempty H0. apply nothing_sampled_is_a_no_op; [exact H0|].
  rewrite Hempty. apply rate_count_of_no_row.
Qed.

(** A sample of as many positions as there are holds every position. *)
Lemma full_sample n (g : rng_state) j :
  (j < n)%nat -> j ∈ (sample n n g).1.
Proof.
  intros Hj.
  assert (Hperm : (sample n n g).1 ≡ₚ seq 0 n).
  { apply submseteq_length_Permutation.
    - apply NoDup_submseteq; [apply sample_NoDup, le_n|].
      intros i Hi. apply elem_of_seq. apply sample_lt in Hi; lia.
    - rewrite length_seq, sample_length; lia. }
  rewrite Hperm. apply elem_of_seq. lia.
Qed.

Lemma drop_from_all i labels df :
  (forall j, (i <= j < i + length df)%nat -> j ∈ labels) ->
  drop_from i labels df = [].
Proof.
  revert i. induction df as [|r df IH]; intros i Hall; cbn; [reflexivity|].
  rewrite bool_decide_eq_true_2 by (apply Hall; cbn; lia).
  apply IH. intros j Hj. apply Hall. cbn. lia.
Qed.

(** X19.  At a rate of 1 every row is sampled: [drop] returns the number of
    rows and leaves the table empty; [cut] returns the number of rows and
    leaves twice as many regions, all of them tagged Cut. *)
Theorem a_rate_of_1_takes_every_row rate w :
  (rate == 1)%Q ->
  let rows := length (bed (self w)) in
  (exists w', drop rate w = (Ok (Z.of_nat rows), w') /\ bed (self w') = []) /\
  (exists w', cut rate w = (Ok (Z.of_nat rows), w') /\
              length (bed (self w')) = (2 * rows)%nat /\
              Forall (fun r => tag r = Cut) (bed (self w'))).
Proof.
  intros Hr rows.
  assert (H0 : (0 <= rate)%Q) by (rewrite Hr; discriminate).
  assert (H1 : (rate <= 1)%Q) by (rewrite Hr; discriminate).
  pose proof (rate_count_of_rate_1 rows rate Hr) as Hk.
  set (picked := (sample rows rows (rng w)).1).
  assert (Hlt : forall j, j ∈ picked -> (j < rows)%nat)
    by (intros j; apply sample_lt, le_n).
  assert (Hlen : length picked = rows) by apply sample_length, le_n.
  assert (Hall : drop_rows picked (bed (self w)) = []).
  { apply drop_from_all. intros j Hj. apply full_sample. fold rows in Hj. lia. }
  set (w1 := mkWorld (self w) (sample rows rows (rng w)).2 (log w) (fs w)).
  split.
  - eexists. split.
    + unfold drop, bind. rewrite precheck_valid by assumption.
      unfold get_self at 1. cbn beta iota. fold rows. rewrite Hk.
      rewrite random_sample_ok by lia. rewrite Nat2Z.id. fold picked.
      unfold get_self, lift, set_bed, ret. cbn [self bed].
      rewrite df_drop_ok by exact Hlt. rewrite Hlen. reflexivity.
    + cbn [self bed]. exact Hall.
  - destruct (cut_loop_spec picked [] [] w1 Hlt) as (pieces & HF & Hloop).
    eexists. split; [|split].
    + unfold cut, bind. rewrite precheck_valid by assumption.
      unfold get_self at 1. cbn beta iota. fold rows. rewrite Hk.
      rewrite random_sample_ok by lia. rewrite Nat2Z.id. fold picked w1.
      rewrite Hloop. cbn beta iota.
      unfold get_self, lift, set_bed, ret. cbn [self bed app].
      rewrite df_drop_ok by exact Hlt. rewrite Hlen. reflexivity.
    + cbn [self bed]. change (self w1) with (self w). rewrite Hall. cbn [app].
      rewrite <- Hlen. clear -HF.
      induction HF as [|row p rows' ps _ _ IH]; [reflexivity|].
      cbn [flat_map both length app]. rewrite IH. lia.
    + cbn [self bed]. change (self w1) with (self w). rewrite Hall. cbn [app].
      clear -HF. induction HF as [|row p rows' ps Hp _ IH]; [constructor|].
      destruct Hp as (r & _ & _ & _ & Ht1 & Ht2 & _).
      cbn [flat_map both app]. constructor; [exact Ht1|].
      constructor; [exact Ht2|exact IH].
Qed.

End MoreProperties.

(** * The properties on the example inputs *)

#[local] Existing Instance Tape.source.
#[local] Existing Instance Numbered.resolver.

Lemma sizes_not_empty : Example.sizes <> ∅.
Proof. discriminate. Qed.

Lemma sizes_positive c len : Example.sizes !! c = Some len -> 1 <= len.
Proof.
  unfold Example.sizes, lookup, dict_lookup. cbn. intros Hc.
  case_bool_decide; [|discriminate]. injection Hc as <-. lia.
Qed.

Lemma ten_on_chr1 r : r ∈ Example.ten -> is_Some (Example.sizes !! chrom r).
Proof.
  revert r. apply Forall_forall. apply (bool_decide_unpack _).
  vm_compute. exact I.
Qed.



(** C2, an instance: the draw of the shift is 40. *)
Lemma shift_from_file_shifts_a_row_outside_the_overlap_witness :
  existsb (overlaps (Example.chr1 0 100)) (bed_table Example.external) = false /\
  existsb (overlaps (Example.chr1 500 600)) (bed_table Example.external) = true /\
  shift_from_file "ext.bed" (2#5) 0 150 Example.three_world
  = (Ok 1,
     mkWorld
       (mkBedshift
          [Example.chr1 200 300; Example.chr1 500 600;
           mkRegion "chr1" 40 140 Shifted]
          (original_bed Example.three) Example.sizes)
       [] [] Example.three_files).
Proof.
  pose proof (shift_from_file_shifts_a_row_outside_the_overlap
                [0; 40] 0 150) as Hthree.
  cbv zeta in Hthree.
  destruct Hthree as (Hout & Hin & _); [unfold Qle; simpl; lia|].
  split; [exact Hout|]. split; [exact Hin|].
  vm_compute. reflexivity.
Defined.

(** C3, an instance: the ten regions loaded without chromosome sizes. *)
Lemma zero_rate_fails_without_chrom_lens_witness :
  let w := Example.no_sizes_world in
  (forall mean stdev shift_rows,
      shift 0 mean stdev shift_rows w = (Raise MissingChromosomeLengths, w)) /\
  (forall mean stdev,
      add 0 mean stdev w = (Raise MissingChromosomeLengths, w)) /\
  (forall fp, add_from_file fp 0 w = (Raise MissingChromosomeLengths, w)) /\
  (forall addmean addstdev shiftmean shiftstdev,
      all_perturbations 0 addmean addstdev None 0 shiftmean shiftstdev None
                        0 0 0 None w
      = (Raise MissingChromosomeLengths, w)) /\
  (forall fp mean stdev,
      exists e, shift_from_file fp 0 mean stdev w = (Raise e, w)).
Proof.
  apply (zero_rate_fails_without_chrom_lens 0 Example.no_sizes_world).
  - reflexivity.
  - reflexivity.
Defined.

(** C4, an instance: a rate of 3/2. *)
Lemma rate_outside_unit_interval_is_refused_witness :
  let w := Example.ten_world [] in
  (forall mean stdev shift_rows,
      shift (3#2) mean stdev shift_rows w = (Raise InvalidRate, w)) /\
  (forall fp mean stdev,
      shift_from_file fp (3#2) mean stdev w = (Raise InvalidRate, w)) /\
  cut (3#2) w = (Raise InvalidRate, w) /\
  merge (3#2) w = (Raise InvalidRate, w) /\
  drop (3#2) w = (Raise InvalidRate, w) /\
  (forall fp,
      (((3#2) < 0)%Q -> drop_from_file fp (3#2) w = (Raise InvalidRate, w)) /\
      ((1 < (3#2))%Q -> (drop_from_file fp (3#2) w).1 <> Raise InvalidRate)).
Proof.
  apply (rate_outside_unit_interval_is_refused (3#2) (Example.ten_world [])).
  right. unfold Qlt; simpl; lia.
Defined.

(** C4 as stated fails for [drop_from_file]: with a rate of 3/2 it drops a
    row and returns 1. *)
Lemma drop_from_file_accepts_a_rate_above_1 :
  (1 < (3#2))%Q /\
  (drop_from_file "ext.bed" (3#2) Example.two_world).1 = Ok 1 /\
  bed (self (drop_from_file "ext.bed" (3#2) Example.two_world).2)
  = [Example.chr1 100 200].
Proof. vm_compute. repeat split. Qed.

(** C5, an instance: two of the ten regions are dropped. *)
Lemma drop_removes_the_sampled_rows_witness :
  let w := Example.ten_world [3] in
  exists (picked : list nat) (w' : world),
    drop (2#10) w = (Ok (Z.of_nat (length picked)), w') /\
    (Z.of_nat (length picked) = rate_count (length (bed (self w))) (2#10) /\
     Qfloor (exact_product (length (bed (self w))) (2#10))
     <= rate_count (length (bed (self w))) (2#10)
     <= Qceiling (exact_product (length (bed (self w))) (2#10))) /\
    NoDup picked /\
    bed (self w') = drop_rows picked (bed (self w)) /\
    (length (bed (self w')) + length picked)%nat = length (bed (self w)) /\
    (NoDup (bed (self w)) ->
     forall j r, j ∈ picked -> bed (self w) !! j = Some r -> r ∉ bed (self w')).
Proof.
  apply (drop_removes_the_sampled_rows (2#10) (Example.ten_world [3])).
  - unfold Qle; simpl; lia.
  - unfold Qle; simpl; lia.
Defined.

(** C5 as stated fails: of two identical rows [drop] removes one, and the
    region that remains is identical to the removed one. *)
Lemma drop_leaves_a_region_identical_to_the_removed_one :
  bed (self Example.twice_world) = [Example.chr1 0 100; Example.chr1 0 100] /\
  (drop (1#2) Example.twice_world).1 = Ok 1 /\
  bed (self (drop (1#2) Example.twice_world).2) = [Example.chr1 0 100].
Proof. vm_compute. repeat split. Qed.

(** C6, an instance: one of the ten regions is sampled. *)
Lemma merge_only_adjacent_rows_of_one_chromosome_witness :
  let w := Example.ten_world [2] in
  exists (merge_rows : list nat) (outs : list (list nat * option Region))
         (w' : world),
    merge (1#10) w = (Ok (Z.of_nat (length merge_rows)), w') /\
    Z.of_nat (length merge_rows)
      = rate_count (length (bed (self w))) (1#10) /\
    NoDup merge_rows /\
    Forall2 (merge_of (bed (self w))) merge_rows outs /\
    bed (self w') = drop_rows (concat outs.*1) (bed (self w)) ++ omap snd outs /\
    (forall i r,
        bed (self w) !! i = Some r ->
        (forall j, j ∈ merge_rows -> mergeable (bed (self w)) j ->
                   i <> j /\ i <> (j + 1)%nat) ->
        r ∈ bed (self w')).
Proof.
  apply (merge_only_adjacent_rows_of_one_chromosome (1#10) (Example.ten_world [2])).
  - unfold Qle; simpl; lia.
  - unfold Qle; simpl; lia.
Defined.

(** C6 as stated fails: rows 0 and 1 are sampled; rows 0 and 1 are merged;
    the sample of row 1 fails, row 2 lying on another chromosome; and row 1
    is not left in the table: it went with the merge of rows 0 and 1. *)
Lemma merge_drops_the_row_of_a_failed_sample :
  let w := Example.mixed_world in
  (sample 4 2 (rng w)).1 = [0%nat; 1%nat] /\
  _merge (self w) 1 = Ok ([], None) /\
  bed (self w) !! 1%nat = Some (Example.chr1 100 200) /\
  (merge (1#2) w).1 = Ok 2 /\
  bed (self (merge (1#2) w).2)
  = [Example.chr2 0 100; Example.chr2 500 600; mkRegion "chr1" 0 200 Merged].
Proof. vm_compute. repeat split. Qed.

(** C7, an instance: one of the ten regions is cut. *)
Lemma cut_replaces_each_sampled_row_by_two_witness :
  let w := Example.ten_world [2] in
  exists (cut_rows : list nat) (pieces : list (Region * Region)) (w' : world),
    cut (1#10) w = (Ok (Z.of_nat (length cut_rows)), w') /\
    Z.of_nat (length cut_rows)
      = rate_count (length (bed (self w))) (1#10) /\
    NoDup cut_rows /\
    Forall2 (cut_of (bed (self w))) cut_rows pieces /\
    bed (self w') = drop_rows cut_rows (bed (self w)) ++ flat_map both pieces /\
    length (bed (self w')) = (length (bed (self w)) + length cut_rows)%nat.
Proof.
  apply (cut_replaces_each_sampled_row_by_two (1#10) (Example.ten_world [2])).
  - unfold Qle; simpl; lia.
  - unfold Qle; simpl; lia.
Defined.

(** C8, an instance: three regions are added to the ten. *)
Lemma add_appends_regions_within_bounds_witness :
  let w := Example.ten_world [2; 40; -500; 700; 990; 20; 5] in
  let k := rate_count (length (bed (self w))) (3#10) in
  exists (new_regions : list Region) (w' : world),
    add (3#10) 320 30 w = (Ok k, w') /\
    Z.of_nat (length new_regions) = k /\
    bed (self w') = bed (self w) ++ new_regions /\
    Forall (added_to (chrom_lens (self w))) new_regions.
Proof.
  destruct (add_appends_regions_within_bounds (3#10) 320 30
              (Example.ten_world [2; 40; -500; 700; 990; 20; 5])
              sizes_not_empty) as (_ & _ & _ & Hadd).
  apply Hadd.
  - unfold Qle; simpl; lia.
  - unfold Qle; simpl; lia.
  - exact sizes_positive.
Defined.

(** C8 as stated fails.  On three rows, at the float nearest to 1/3, the
    floor of rows * rate is 0, and [add] appends one region and returns 1:
    the float product is 1.  And on the ten regions, at a rate of 1/2 and
    with a deviation of -30, [add] fails with a ValueError and returns
    nothing. *)
Lemma add_appends_a_region_where_the_floor_is_0 :
  let w := Example.loaded (bed Example.three) Example.sizes [0; 7; 40] ∅ in
  let rate := binary64 (1 # 3) in
  (0 <= rate)%Q /\ (rate < 1 # 3)%Q /\
  Qfloor (inject_Z (Z.of_nat (length (bed (self w)))) * rate) = 0 /\
  (add rate 320 30 w).1 = Ok 1 /\
  bed (self (add rate 320 30 w).2)
  = bed (self w) ++ [mkRegion "chr1" 8 48 Added] /\
  (add (1#2) 320 (-30) (Example.ten_world [0; 7])).1 = Raise ValueError.
Proof.
  cbv zeta. split; [discriminate|]. split; [reflexivity|].
  vm_compute. repeat split.
Qed.

(** C9, an instance: three shifts are requested where one region overlaps. *)
Lemma failed_call_leaves_the_table_unchanged_witness :
  call (Call_shift_from_file "ext.bed" 1 0 150) Example.three_world
  = (Raise (InsufficientOverlap 1 3), Example.three_world) /\
  bed (self Example.three_world) = bed (self Example.three_world).
Proof.
  assert (Hfail : call (Call_shift_from_file "ext.bed" 1 0 150) Example.three_world
                  = (Raise (InsufficientOverlap 1 3), Example.three_world))
    by (vm_compute; reflexivity).
  split; [exact Hfail|].
  exact (failed_call_leaves_the_table_unchanged _ _ _ _ Hfail).
Defined.

(** C10, an instance: a path of no file at rate 0, and a file on another
    chromosome at rate 1. *)
Lemma drop_from_file_zero_rate_returns_at_once_witness :
  let w := Example.apart_world in
  drop_from_file "none.bed" 0 w = (Ok 0, w) /\
  exists w',
    drop_from_file "ext.bed" 1 w = (Raise NoOverlapFound, w') /\
    self w' = self w /\ rng w' = rng w.
Proof.
  split.
  - apply (proj1 (drop_from_file_zero_rate_returns_at_once
                    "none.bed" 0 Example.apart_world)).
    reflexivity.
  - apply (proj2 (drop_from_file_zero_rate_returns_at_once
                    "ext.bed" 1 Example.apart_world)) with Example.apart.
    + unfold Qlt; simpl; lia.
    + reflexivity.
    + apply (bool_decide_unpack _). vm_compute. exact I.
Defined.

(** C10 as stated fails for a rate above 0: once the one region has been
    shifted by 500 the external file overlaps nothing in the working table,
    and [drop_from_file] with rate 1 still succeeds, on the overlap with the
    original table. *)
Lemma drop_from_file_succeeds_without_overlap_with_the_working_table :
  let w := (shift 1 0 150 None Example.one_world).2 in
  bed (self w) = [mkRegion "chr1" 500 600 Shifted] /\
  Forall (fun r => existsb (overlaps r) (bed_table Example.near) = false)
         (bed (self w)) /\
  (0 < 1)%Q /\
  (drop_from_file "ext.bed" 1 w).1 = Ok 1.
Proof.
  cbv zeta. split; [vm_compute; reflexivity|].
  split; [apply (bool_decide_unpack _); vm_compute; exact I|].
  split; vm_compute; reflexivity.
Qed.

(** * More of the engine on the example inputs *)

(** X2, an instance: the ten regions, every rate at 0. *)
Lemma all_perturbations_at_zero_rates_is_a_no_op_witness :
  let w := Example.ten_world [1; 2] in
  all_perturbations 0 320 30 None 0 0 150 None 0 0 0 None w = (Ok 0, w).
Proof.
  apply (all_perturbations_at_zero_rates_is_a_no_op
           0 320 30 0 0 150 0 0 0 (Example.ten_world [1; 2])).
  - exact sizes_not_empty.
  - reflexivity.
  - reflexivity.
  - reflexivity.
  - reflexivity.
  - reflexivity.
Defined.

(** X3, an instance: the ten regions, one rate at 2/10. *)
Lemma all_perturbations_with_one_stage_witness :
  let w := Example.ten_world [3; 40; 50] in
  all_perturbations 0 320 30 None (2#10) 0 150 None 0 0 0 None w
  = shift (2#10) 0 150 None w /\
  all_perturbations (2#10) 320 30 None 0 0 150 None 0 0 0 None w
  = add (2#10) 320 30 w /\
  all_perturbations 0 320 30 None 0 0 150 None (2#10) 0 0 None w
  = cut (2#10) w /\
  all_perturbations 0 320 30 None 0 0 150 None 0 (2#10) 0 None w
  = merge (2#10) w /\
  all_perturbations 0 320 30 None 0 0 150 None 0 0 (2#10) None w
  = drop (2#10) w.
Proof.
  apply (all_perturbations_with_one_stage
           0 (2#10) 320 30 0 150 (Example.ten_world [3; 40; 50])).
  - exact sizes_not_empty.
  - reflexivity.
Defined.

(** X4, an instance: one region is shifted, then [add] meets a negative
    deviation. *)
Lemma all_perturbations_keeps_the_stages_before_a_failure_witness :
  let w := Example.ten_world [2; 40; -500; 700; 3; 4] in
  let w1 := (shift (3#10) 0 150 None w).2 in
  let w2 := (add (3#10) 320 (-30) w1).2 in
  all_perturbations (3#10) 320 (-30) None (3#10) 0 150 None 0 0 0 None w
  = (Raise ValueError, w2) /\
  bed (self w2) = bed (self w1).
Proof.
  apply (all_perturbations_keeps_the_stages_before_a_failure
           (3#10) 320 (-30) (3#10) 0 150 0 0 0 None
           (Example.ten_world [2; 40; -500; 700; 3; 4]) 1).
  - vm_compute. reflexivity.
  - vm_compute. reflexivity.
Defined.

(** X5, two instances: a region of length 100, cut at 50, and a region of
    length 800 below the top of the 64-bit range, cut 10 above its start. *)
Lemma cut_point_lies_inside_from_length_2_witness :
  let r := Example.chr1 9223372036854775000 9223372036854775800 in
  let top := mkBedshift [r] [r] Example.sizes in
  (exists p1 p2,
      _cut Example.three 0 = Ok (0%nat, [p1; p2]) /\ end_ p1 = 50) /\
  (exists p1 p2,
      _cut top 0 = Ok (0%nat, [p1; p2]) /\
      end_ p1 = 9223372036854775010 /\ start p2 < end_ p2).
Proof.
  cbv zeta. split.
  - destruct (cut_point_lies_inside_from_length_2
                Example.three 0 (Example.chr1 0 100) eq_refl)
      as (p1 & p2 & Hcut & Hmid & _); [cbn; lia|cbn; lia|].
    exists p1, p2. split; [exact Hcut|].
    destruct Hmid as [Hmid _]; [cbn; lia|cbn; lia|]. exact Hmid.
  - destruct (cut_point_lies_inside_from_length_2
                (mkBedshift
                   [Example.chr1 9223372036854775000 9223372036854775800]
                   [Example.chr1 9223372036854775000 9223372036854775800]
                   Example.sizes)
                0 (Example.chr1 9223372036854775000 9223372036854775800)
                eq_refl)
      as (p1 & p2 & Hcut & _ & _ & Hwrap); [cbn; lia|cbn; lia|].
    exists p1, p2. split; [exact Hcut|].
    destruct Hwrap as (Hten & _ & Hlong); [cbn; lia|cbn; lia|].
    split; [exact Hten|exact Hlong].
Defined.

(** X6, an instance: the last of three rows. *)
Lemma last_row_is_never_merged_witness :
  (exists out, _merge Example.three 2 = Ok out) /\
  _merge Example.three 2 = Ok ([], None).
Proof.
  destruct (last_row_is_never_merged Example.three 2) as [Htotal Hlast].
  split; [exact Htotal|]. apply Hlast. simpl. lia.
Defined.

(** X7, an instance: two rows are requested of a file of one. *)
Lemma add_from_file_appends_rows_of_the_file_witness :
  let w := Example.two_world in
  let rows := [("chr1", 50, 150)] in
  let num_add :=
    Z.min (rate_count (length (bed (self w))) 1)
          (Z.of_nat (length rows)) in
  exists (add_rows : list nat) (new_regions : list Region) (w' : world),
    add_from_file "ext.bed" 1 w = (Ok num_add, w') /\
    Z.of_nat (length add_rows) = num_add /\
    NoDup add_rows /\
    Forall2 (fun j r => exists c s e,
                 rows !! j = Some (c, s, e) /\ r = mkRegion c s e Added)
            add_rows new_regions /\
    bed (self w') = bed (self w) ++ new_regions.
Proof.
  apply (add_from_file_appends_rows_of_the_file "ext.bed" 1 Example.two_world
           [("chr1", 50, 150)]).
  - unfold Qle; simpl; lia.
  - exact sizes_not_empty.
  - reflexivity.
  - discriminate.
Defined.

(** X8, an instance: a path of no file. *)
Lemma unreadable_file_stops_the_from_file_operators_witness :
  let w := Example.ten_world [] in
  add_from_file "none.bed" (1#2) w = (Raise UnreadableInput, w) /\
  (forall mean stdev,
      shift_from_file "none.bed" (1#2) mean stdev w = (Raise UnreadableInput, w)) /\
  drop_from_file "none.bed" (1#2) w = (Raise UnreadableInput, w).
Proof.
  destruct (unreadable_file_stops_the_from_file_operators
              "none.bed" (1#2) (Example.ten_world []) eq_refl)
    as (Hadd & Hshift & Hdrop).
  split; [|split].
  - apply Hadd; [unfold Qle; simpl; lia|exact sizes_not_empty].
  - apply Hshift; unfold Qle; simpl; lia.
  - apply Hdrop. unfold Qlt; simpl; lia.
Defined.

(** X9, an instance: a file on another chromosome. *)
Lemma no_overlap_found_iff_every_pair_is_apart_witness :
  let w := Example.apart_world in
  (_find_overlap "ext.bed" w = (Raise NoOverlapFound, w) <->
   forall r c, r ∈ original_bed (self w) -> c ∈ bed_table Example.apart ->
               overlaps r c = false) /\
  (forall e w', _find_overlap "ext.bed" w = (Raise e, w') -> e = NoOverlapFound) /\
  (forall found w',
      _find_overlap "ext.bed" w = (Ok found, w') ->
      w' = w /\ found <> [] /\
      found.*2 ≡ₚ filter (fun r => existsb (overlaps r)
                                     (bed_table Example.apart) = true)
                         (original_bed (self w))).
Proof.
  apply (no_overlap_found_iff_every_pair_is_apart
           "ext.bed" Example.apart_world Example.apart).
  - reflexivity.
  - discriminate.
Defined.

(** X10, an instance: the ten regions loaded without chromosome sizes. *)
Lemma shift_from_file_needs_chrom_lens_witness :
  let w := Example.no_sizes_world in
  exists e w',
    shift_from_file "ext.bed" (1#2) 0 150 w = (Raise e, w') /\ self w' = self w.
Proof.
  apply (shift_from_file_needs_chrom_lens "ext.bed" (1#2) 0 150
           Example.no_sizes_world).
  reflexivity.
Defined.

(** X11, an instance: one shift requested, one region overlapping, a
    deviation of -150. *)
Lemma shift_from_file_reports_a_negative_deviation_as_missing_overlap_witness :
  let w := Example.three_world in
  let available :=
    length (overlap_first (original_bed (self w)) (bed_table Example.external)) in
  let requested := rate_count (length (bed (self w))) (2#5) in
  exists w',
    shift_from_file "ext.bed" (2#5) 0 (-150) w
    = (Raise (InsufficientOverlap (Z.of_nat available) requested), w') /\
    self w' = self w.
Proof.
  apply (shift_from_file_reports_a_negative_deviation_as_missing_overlap
           "ext.bed" (2#5) 0 (-150) Example.three_world Example.external).
  - unfold Qle; simpl; lia.
  - unfold Qle; simpl; lia.
  - unfold Qlt; simpl; lia.
  - exact sizes_not_empty.
  - reflexivity.
  - vm_compute. split; discriminate.
Defined.


(** X13, an instance: three of the ten regions are candidates. *)
Lemma shift_keeps_the_number_of_regions_witness :
  let w := Example.ten_world [2; 40; -500; 700] in
  exists (kept moved : list Region) (w' : world),
    shift (3#10) 0 150 None w = (Ok (Z.of_nat (length moved)), w') /\
    bed (self w') = kept ++ moved /\
    sublist kept (bed (self w)) /\
    Forall (fun r => tag r = Shifted) moved /\
    length (bed (self w')) = length (bed (self w)) /\
    Z.of_nat (length moved)
      <= rate_count (length (bed (self w))) (3#10).
Proof.
  apply (shift_keeps_the_number_of_regions (3#10) 0 150
           (Example.ten_world [2; 40; -500; 700])).
  - unfold Qle; simpl; lia.
  - unfold Qle; simpl; lia.
  - unfold Qle; simpl; lia.
  - exact sizes_not_empty.
  - exact ten_on_chr1.
Defined.

(** X14, an instance: two of four rows are sampled. *)
Lemma merge_never_adds_a_row_witness :
  let w := Example.mixed_world in
  exists (k : Z) (kept merged : list Region) (w' : world),
    merge (1#2) w = (Ok k, w') /\
    bed (self w') = kept ++ merged /\
    sublist kept (bed (self w)) /\
    Forall (fun r => tag r = Merged) merged /\
    Z.of_nat (length merged) <= k /\
    (merged = [] -> bed (self w') = bed (self w)) /\
    (merged <> [] -> (length (bed (self w')) < length (bed (self w)))%nat).
Proof.
  apply (merge_never_adds_a_row (1#2) Example.mixed_world).
  - unfold Qle; simpl; lia.
  - unfold Qle; simpl; lia.
Defined.

(** X15, an instance: a rate of 3/2 and a file of one region. *)
Lemma drop_from_file_drops_at_most_its_count_witness :
  let w := Example.two_world in
  let w' := (drop_from_file "ext.bed" (3#2) w).2 in
  exists rows,
    let requested := rate_count (length (bed (self w))) (3#2) in
    let size := Z.of_nat (length rows) in
    fs w !! "ext.bed" = Some rows /\
    1 = Z.min requested size /\
    0 <= 1 <= Z.of_nat (length (overlap_first (original_bed (self w))
                                               (bed_table rows))) /\
    log w' = log w ++ (if size <=? requested
                       then [WarnDropClamped requested size] else []) /\
    sublist (bed (self w')) (bed (self w)) /\
    Z.of_nat (length (bed (self w))) <= Z.of_nat (length (bed (self w'))) + 1.
Proof.
  apply (drop_from_file_drops_at_most_its_count "ext.bed" (3#2)
           Example.two_world 1).
  - unfold Qlt; simpl; lia.
  - vm_compute. reflexivity.
Defined.

(** X16, an instance: chr1 of length 1000 followed by chr3 of length 2000;
    the weights are the floats nearest to 1/3 and 2/3. *)
Lemma chrom_weights_add_up_to_1_witness :
  let s := mkBedshift [] [] [("chr1", 1000); ("chr3", 2000)] in
  let total_len := foldr Z.add 0 (chrom_lens s).*2 in
  Forall2 (fun item weight =>
             (0 <= weight)%Q /\ (weight <= 1)%Q /\
             (Qabs (weight - inject_Z item.2 / inject_Z total_len)
              <= 1 # 2 ^ 53)%Q)
          (chrom_lens s) (chrom_weights s) /\
  (Qabs (foldr Qplus (0 : Q) (chrom_weights s) - 1)
   <= inject_Z (Z.of_nat (length (chrom_lens s))) * (1 # 2 ^ 53))%Q.
Proof.
  apply (chrom_weights_add_up_to_1
           (mkBedshift [] [] [("chr1", 1000); ("chr3", 2000)])).
  - discriminate.
  - repeat constructor; cbn; lia.
Defined.

(** X17, an instance: three rows and a rate of 3/10. *)
Lemma a_rate_that_selects_no_row_does_nothing_witness :
  let w := Example.three_world in
  cut (3#10) w = (Ok 0, w) /\ merge (3#10) w = (Ok 0, w) /\
  drop (3#10) w = (Ok 0, w) /\
  (chrom_lens (self w) <> ∅ ->
   forall mean stdev,
     shift (3#10) mean stdev None w = (Ok 0, w) /\
     add (3#10) mean stdev w = (Ok 0, w)).
Proof.
  apply (a_rate_that_selects_no_row_does_nothing (3#10) Example.three_world).
  - unfold Qle; simpl; lia.
  - unfold Qle; simpl; lia.
  - reflexivity.
Defined.

(** X18, an instance: an empty table and a rate of 1/2. *)
Lemma operators_do_nothing_on_an_empty_table_witness :
  let w := Example.empty_world in
  (((1#2) <= 1)%Q ->
   cut (1#2) w = (Ok 0, w) /\ merge (1#2) w = (Ok 0, w) /\
   drop (1#2) w = (Ok 0, w) /\
   (chrom_lens (self w) <> ∅ ->
    forall mean stdev, shift (1#2) mean stdev None w = (Ok 0, w))) /\
  (chrom_lens (self w) <> ∅ ->
   forall mean stdev, add (1#2) mean stdev w = (Ok 0, w)).
Proof.
  apply (operators_do_nothing_on_an_empty_table (1#2) Example.empty_world).
  - reflexivity.
  - unfold Qle; simpl; lia.
Defined.

(** X19, an instance: the ten regions. *)
Lemma a_rate_of_1_takes_every_row_witness :
  let w := Example.ten_world [0] in
  let rows := length (bed (self w)) in
  (exists w', drop 1 w = (Ok (Z.of_nat rows), w') /\ bed (self w') = []) /\
  (exists w', cut 1 w = (Ok (Z.of_nat rows), w') /\
              length (bed (self w')) = (2 * rows)%nat /\
              Forall (fun r => tag r = Cut) (bed (self w'))).
Proof.
  apply (a_rate_of_1_takes_every_row 1 (Example.ten_world [0])).
  reflexivity.
Defined.
